(** * akita-cli: pairing collector, batch upload, HAR replay and REST errors

    A shallow embedding of
      - [trace/backend_collector.go]  (package [trace]),
      - the HAR replay adapter         (package [apispec]),
      - the REST transport             (package [rest]),
      - the [apidump] command          (package [cmd/apidump]),
    followed by the properties proved about them.

    Conventions.  Mutable Go objects become explicit state: a collector is a
    value of [BackendCollector], everything outside the collector (plugins,
    redactor, remote service, printer) lives in a [World].  Calls that leave
    the collector are recorded, in call order, in the world's [trace].  The
    clock is an explicit argument: each [time.Now()] of the source is a
    parameter [now] of the embedded function.

    Functions of other packages are parameters ([Externals], [LearnClient],
    [AkitaPlugin], [FromHAR], [HTTPClient]); of the Go standard library,
    [time], [http.Header.Set] with its canonical header names and
    [Request.SetBasicAuth] are written out.  Three pieces that the
    statements need and the sources do not contain are written after the
    specification and marked as such: the batcher ([batcher.InMemory]),
    [sampled_err.Add] and [apidump.Run]. *)

From Stdlib Require Import ZArith List Lia Permutation.
From Stdlib Require Import DecimalString.
From stdpp Require Import base option list gmap strings.

Local Open Scope Z_scope.

(** ** Go's [time] package, as far as the sources use it *)

Module time.

(** A [time.Time] is an instant; the embedding counts nanoseconds from the
    zero instant of Go (January 1, year 1, 00:00 UTC), so that the zero
    value of [time.Time] is [0]. *)
Definition Time := Z.

(** A [time.Duration] is an [int64] count of nanoseconds. *)
Definition Duration := Z.

Definition Millisecond : Duration := 1000000.
Definition Second : Duration := 1000 * Millisecond.
Definition Minute : Duration := 60 * Second.

Definition minDuration : Duration := - 2 ^ 63.
Definition maxDuration : Duration := 2 ^ 63 - 1.

Definition IsZero (t : Time) : bool := t =? 0.

Definition Before (t u : Time) : bool := t <? u.

(** [t.Sub(u)] saturates at the ends of [int64]. *)
Definition Sub (t u : Time) : Duration :=
  let d := t - u in
  if d <? minDuration then minDuration
  else if maxDuration <? d then maxDuration
  else d.

Definition Add (t : Time) (d : Duration) : Time := t + d.

End time.

Abbreviation Time := time.Time.
Abbreviation Duration := time.Duration.

(** ** Small shared types *)

(** Go [error] values are carried by their message. *)
Definition error := string.

Inductive result (A : Type) : Type :=
| Ok (a : A)
| Err (e : error).
Arguments Ok {A} a.
Arguments Err {A} e.

(** [errors.Wrap(err, msg)] *)
Definition Wrap (err : error) (msg : string) : error := msg +:+ ": " +:+ err.

(** [net.IP] is a byte slice. *)
Definition IP := list Byte.byte.

(** [akid.WitnessID], [akid.LearnSessionID], [akid.ServiceID] and
    [uuid.UUID] wrap a 128-bit identifier. *)
Definition WitnessID := N.
Definition LearnSessionID := N.
Definition ServiceID := N.
Definition UUID := N.

(** [uint16(x)] for a Go [int]. *)
Definition uint16 (x : Z) : Z := x mod 2 ^ 16.

(** [kgxapi.NetworkDirection] *)
Inductive NetworkDirection := Inbound | Outbound.

(** Levels of the [printer] package used by the sources. *)
Inductive Level := LDebug | LWarning | LError.

Section Trace.

(** [Method] is [pb.Method]; [ExtState] is whatever state the external
    collaborators keep (plugins, redactor, remote service); [Payload] is the
    part of an HTTP message the code under study never inspects. *)
Context {Method ExtState Payload : Type}.

(** [pb.Witness]: a message whose only field is the method. *)
Record Witness := { wMethod : Method }.

Definition GetMethod (w : Witness) : Method := wMethod w.

(** ** [witnessWithInfo] and [toReport] *)

Record witnessWithInfo := {
  srcIP : IP;
  srcPort : Z;   (* uint16 *)
  dstIP : IP;
  dstPort : Z;   (* uint16 *)
  observationTime : Time;
  id : WitnessID;
  witness : Witness
}.

Definition setWitness (w : witnessWithInfo) (x : Witness) : witnessWithInfo :=
  {| srcIP := srcIP w; srcPort := srcPort w; dstIP := dstIP w;
     dstPort := dstPort w; observationTime := observationTime w;
     id := id w; witness := x |}.

(** [pair.srcIP, pair.dstIP = pair.dstIP, pair.srcIP] and the same for
    the ports. *)
Definition flipSrcDst (w : witnessWithInfo) : witnessWithInfo :=
  {| srcIP := dstIP w; srcPort := dstPort w; dstIP := srcIP w;
     dstPort := srcPort w; observationTime := observationTime w;
     id := id w; witness := witness w |}.

(** [kgxapi.WitnessReport] *)
Record WitnessReport := {
  Direction : NetworkDirection;
  OriginAddr : IP;
  OriginPort : Z;
  DestinationAddr : IP;
  DestinationPort : Z;
  WitnessProto : string;
  ClientWitnessTime : Time;
  Hash : string;
  ID : WitnessID
}.

(** ** The world outside the collector *)

Inductive Event :=
| EvQueueUpload (w : witnessWithInfo)
    (* a record enters [queueUpload]; a marker, not a call *)
| EvTransform (plugin : string) (m : Method)
    (* [p.Transform(m)] of the plugin named [plugin] *)
| EvObfuscate (m : Method)
    (* [obfuscate(m)] *)
| EvPrint (lvl : Level) (format : string) (args : list string)
    (* [printer.Debugf], [printer.Warningf], [printer.Errorf] *)
| EvReportWitnesses (timeout : Duration) (lrn : LearnSessionID)
                    (reports : list WitnessReport).
    (* [learnClient.ReportWitnesses(ctx, lrn, reports)], [ctx] carrying
       the given timeout *)

Record World := { ext : ExtState; trace : list Event }.

Definition emit (e : Event) (w : World) : World :=
  {| ext := ext w; trace := trace w ++ [e] |}.

Definition setExt (x : ExtState) (w : World) : World :=
  {| ext := x; trace := trace w |}.

(** [plugin.AkitaPlugin]: [Transform] may rewrite the method in place and
    may keep state of its own. *)
Record AkitaPlugin := {
  Name : string;
  Transform : ExtState -> Method -> ExtState * Method * option error
}.

(** [rest.LearnClient], as far as the collector uses it. *)
Record LearnClient := {
  ReportWitnesses :
    ExtState -> LearnSessionID -> list WitnessReport -> ExtState * option error
}.

(** [akinet.HTTPRequest] and [akinet.HTTPResponse]: the two fields the
    replay adapter assigns, and the rest. *)
Record HTTPRequest := {
  reqStreamID : UUID; reqSeq : Z; reqPayload : Payload
}.
Record HTTPResponse := {
  respStreamID : UUID; respSeq : Z; respPayload : Payload
}.

(** [akinet.ParsedNetworkContent] *)
Inductive ParsedNetworkContent :=
| ContentHTTPRequest (r : HTTPRequest)
| ContentHTTPResponse (r : HTTPResponse)
| ContentOther (p : Payload).

(** [akinet.ParsedNetworkTraffic] *)
Record ParsedNetworkTraffic := {
  SrcIP : IP;
  SrcPort : Z;   (* int *)
  DstIP : IP;
  DstPort : Z;   (* int *)
  Content : ParsedNetworkContent;
  ObservationTime : Time
}.

(** [learn.PartialWitness] *)
Record PartialWitness := { pwWitness : Witness; PairKey : WitnessID }.

(** Functions of other packages that the collector calls.  They are not
    part of the sources embedded here and are taken as parameters.
    [rangeOrder] is the order in which a [range] over the pair cache
    visits its entries, which Go leaves unspecified. *)
Class Externals := {
  ParseHTTP : ParsedNetworkContent -> result PartialWitness;
    (* [learn.ParseHTTP] *)
  MergeWitness : Witness -> Witness -> Witness;
    (* [learn.MergeWitness(dst, src)]; the result is the new [dst] *)
  HashProto : Witness -> result string;
    (* [pbhash.HashProto] *)
  Marshal : Witness -> result (list Byte.byte);
    (* [proto.Marshal] *)
  EncodeToString : list Byte.byte -> string;
    (* [base64.URLEncoding.EncodeToString] *)
  obfuscate : ExtState -> Method -> ExtState * Method;
    (* [obfuscate], of package [trace] *)
  rangeOrder :
    gmap WitnessID witnessWithInfo -> list (WitnessID * witnessWithInfo);
  rangeOrder_perm : forall m, rangeOrder m ≡ₚ map_to_list m
}.

Context `{!Externals}.

Definition toReport (r : witnessWithInfo) (dir : NetworkDirection)
  : result WitnessReport :=
  match HashProto (witness r) with
  | Err err => Err (Wrap err "failed to hash witness proto")
  | Ok hash =>
    match Marshal (witness r) with
    | Err err => Err (Wrap err "failed to marshal witness proto")
    | Ok b =>
      Ok {| Direction := dir;
            OriginAddr := srcIP r;
            OriginPort := srcPort r;
            DestinationAddr := dstIP r;
            DestinationPort := dstPort r;
            WitnessProto := EncodeToString b;
            ClientWitnessTime := observationTime r;
            Hash := hash;
            ID := id r |}
    end
  end.

(** ** Constants of [backend_collector.go] *)

Definition pairCacheExpiration : Duration := time.Minute.
Definition pairCacheCleanupInterval : Duration := 30 * time.Second.
Definition uploadBatchMaxSize : Z := 10.
Definition uploadBatchFlushDuration : Duration := 30 * time.Second.

(** ** [uploadWitnesses] *)

(** The loop of [uploadWitnesses]: one step per item of [in]. *)
Definition convertStep (dir : NetworkDirection)
    (acc : list WitnessReport * World) (w : witnessWithInfo)
  : list WitnessReport * World :=
  match toReport w dir with
  | Ok r => (acc.1 ++ [r], acc.2)
  | Err err =>
    (acc.1,
     emit (EvPrint LWarning "Failed to convert witness to report: %v\n" [err])
          acc.2)
  end.

Definition uploadWitnesses (dir : NetworkDirection) (learnClient : LearnClient)
    (learnSessionID : LearnSessionID) (in_ : list witnessWithInfo) (w : World)
  : World :=
  let '(reports, w1) := foldl (convertStep dir) ([], w) in_ in
  let w2 := emit (EvReportWitnesses (30 * time.Second) learnSessionID reports) w1 in
  let '(x, err) := ReportWitnesses learnClient (ext w2) learnSessionID reports in
  let w3 := setExt x w2 in
  match err with
  | Some e => emit (EvPrint LWarning "Failed to upload witnesses: %v\n" [e]) w3
  | None => w3
  end.

End Trace.

Arguments Witness : clear implicits.
Arguments witnessWithInfo : clear implicits.
Arguments Event : clear implicits.
Arguments World : clear implicits.
Arguments AkitaPlugin : clear implicits.
Arguments LearnClient : clear implicits.
Arguments HTTPRequest : clear implicits.
Arguments HTTPResponse : clear implicits.
Arguments ParsedNetworkContent : clear implicits.
Arguments ParsedNetworkTraffic : clear implicits.
Arguments Externals : clear implicits.

(** ** The batching shipper *)

Module batcher.

Section InMemory.

Context {A W : Type}.

(** Modelled from the spec: [batcher.InMemory] (package
    [akita-libs/batcher]) is not among the sources.  Section 4.4: a
    queue of exchanges, a maximum size [N] and a maximum residency
    duration [T]; [processBatch] is the flush callback handed to
    [NewInMemory].  Each queued item carries the clock reading at which
    it was added. *)
Record InMemory := {
  processBatch : list A -> W -> W;
  maxSize : Z;
  flushDuration : Duration;
  queue : list (Time * A)
}.

Definition setQueue (q : list (Time * A)) (b : InMemory) : InMemory :=
  {| processBatch := processBatch b; maxSize := maxSize b;
     flushDuration := flushDuration b; queue := q |}.

(** Modelled from the spec: the constructor of the missing
    [batcher.InMemory]; the queue starts empty. *)
Definition NewInMemory (p : list A -> W -> W) (n : Z) (d : Duration)
  : InMemory :=
  {| processBatch := p; maxSize := n; flushDuration := d; queue := [] |}.

(** Modelled from the spec: [flush] of the missing [batcher.InMemory]
    hands the queued items, oldest first, to the callback and consumes
    them; flushing an empty queue is a no-op. *)
Definition flush (b : InMemory) (w : W) : InMemory * W :=
  match queue b with
  | [] => (b, w)
  | _ :: _ => (setQueue [] b, processBatch b (map snd (queue b)) w)
  end.

(** Modelled from the spec: [Add] of the missing [batcher.InMemory]
    appends to the queue; if the queue length reaches [N] it triggers
    an immediate flush. *)
Definition Add (now : Time) (x : A) (b : InMemory) (w : W)
  : InMemory * W :=
  let b' := setQueue (queue b ++ [(now, x)]) b in
  if maxSize b <=? Z.of_nat (length (queue b')) then flush b' w
  else (b', w).

(** Modelled from the spec: the time trigger of the missing
    [batcher.InMemory]: if the oldest queued item has resided longer
    than [T], flush regardless of count. *)
Definition timeTrigger (now : Time) (b : InMemory) (w : W)
  : InMemory * W :=
  match queue b with
  | [] => (b, w)
  | (t0, _) :: _ =>
    if flushDuration b <? time.Sub now t0 then flush b w else (b, w)
  end.

(** Modelled from the spec: [Close] of the missing [batcher.InMemory]
    forces a final flush. *)
Definition Close (b : InMemory) (w : W) : InMemory * W := flush b w.

End InMemory.

Arguments InMemory : clear implicits.

End batcher.

(** ** [BackendCollector] *)

Section Collector.

Context {Method ExtState Payload : Type}.
Context `{!Externals Method ExtState Payload}.

Abbreviation witnessWithInfo' := (witnessWithInfo Method).
Abbreviation World' := (World Method ExtState).

Record BackendCollector := {
  serviceID : ServiceID;
  learnSessionID : LearnSessionID;
  learnClient : LearnClient ExtState;
  dir : NetworkDirection;
  (* Cache un-paired partial witnesses by pair key. *)
  pairCache : gmap WitnessID witnessWithInfo';
  (* Batch of witnesses pending upload. *)
  uploadBatch : batcher.InMemory witnessWithInfo' World';
  (* Time when last process call was made. *)
  lastProcessTime : Time;
  plugins : list (AkitaPlugin Method ExtState)
}.

Definition setPairCache (m : gmap WitnessID witnessWithInfo')
    (c : BackendCollector) : BackendCollector :=
  {| serviceID := serviceID c; learnSessionID := learnSessionID c;
     learnClient := learnClient c; dir := dir c; pairCache := m;
     uploadBatch := uploadBatch c; lastProcessTime := lastProcessTime c;
     plugins := plugins c |}.

Definition setUploadBatch (b : batcher.InMemory witnessWithInfo' World')
    (c : BackendCollector) : BackendCollector :=
  {| serviceID := serviceID c; learnSessionID := learnSessionID c;
     learnClient := learnClient c; dir := dir c; pairCache := pairCache c;
     uploadBatch := b; lastProcessTime := lastProcessTime c;
     plugins := plugins c |}.

Definition setLastProcessTime (t : Time) (c : BackendCollector)
  : BackendCollector :=
  {| serviceID := serviceID c; learnSessionID := learnSessionID c;
     learnClient := learnClient c; dir := dir c; pairCache := pairCache c;
     uploadBatch := uploadBatch c; lastProcessTime := t;
     plugins := plugins c |}.

Definition NewBackendCollector (svc : ServiceID) (lrn : LearnSessionID)
    (lc : LearnClient ExtState) (d : NetworkDirection)
    (ps : list (AkitaPlugin Method ExtState)) : BackendCollector :=
  {| serviceID := svc;
     learnSessionID := lrn;
     learnClient := lc;
     dir := d;
     pairCache := ∅;
     uploadBatch :=
       batcher.NewInMemory (uploadWitnesses d lc lrn)
                           uploadBatchMaxSize uploadBatchFlushDuration;
     lastProcessTime := 0;
     plugins := ps |}.

(** The loop of [queueUpload] over [c.plugins], on the method [m] of the
    record.  [Err] is the early [return] of the loop, taken at the first
    plugin whose [Transform] returns an error; [Ok] carries the method as
    the plugins left it. *)
Fixpoint runPlugins (ps : list (AkitaPlugin Method ExtState)) (m : Method)
    (wd : World') : World' * result Method :=
  match ps with
  | [] => (wd, Ok m)
  | p :: ps' =>
    let '(x, m', err) := Transform p (ext wd) m in
    let wd1 := setExt x (emit (EvTransform (Name p) m) wd) in
    match err with
    | Some e =>
      (emit (EvPrint LError "plugin %q returned error, skipping: %v"
                     [Name p; e]) wd1,
       Err e)
    | None => runPlugins ps' m' wd1
    end
  end.

(** [queueUpload].  [clk] is the clock reading with which the batcher
    stamps the record; the first event marks the entry into the function
    and records its argument. *)
Definition queueUpload (clk : Time) (w : witnessWithInfo')
    (c : BackendCollector) (wd : World') : BackendCollector * World' :=
  let wd0 := emit (EvQueueUpload w) wd in
  match runPlugins (plugins c) (GetMethod (witness w)) wd0 with
  | (wd1, Err _) => (c, wd1)
  | (wd1, Ok m) =>
    let '(x, m') := obfuscate (ext wd1) m in
    let wd2 := setExt x (emit (EvObfuscate m) wd1) in
    let w' := setWitness w {| wMethod := m' |} in
    let '(b, wd3) := batcher.Add clk w' (uploadBatch c) wd2 in
    (setUploadBatch b c, wd3)
  end.

(** One iteration of the loop of [flushPairCache]. *)
Definition flushStep (clk cutoffTime : Time)
    (s : BackendCollector * World') (ke : WitnessID * witnessWithInfo')
  : BackendCollector * World' :=
  if time.Before (observationTime ke.2) cutoffTime then
    let '(c1, wd1) := queueUpload clk ke.2 s.1 s.2 in
    (setPairCache (delete ke.1 (pairCache c1)) c1, wd1)
  else s.

(** [flushPairCache]: the loop ranges over the entries the cache holds
    when the loop starts; an iteration deletes no key but its own. *)
Definition flushPairCache (clk cutoffTime : Time) (c : BackendCollector)
    (wd : World') : BackendCollector * World' :=
  foldl (flushStep clk cutoffTime) (c, wd) (rangeOrder (pairCache c)).

(** The body of [Process], up to its [return]s. *)
Definition Process_body (now : Time) (t : ParsedNetworkTraffic Payload)
    (c : BackendCollector) (wd : World') : BackendCollector * World' :=
  let pairUp (isRequest : bool) (parsed : result PartialWitness) :=
    match parsed with
    | Err parseHTTPErr =>
      (c, emit (EvPrint LDebug "Failed to parse HTTP, skipping: %v\n"
                        [parseHTTPErr]) wd)
    | Ok partial =>
      match pairCache c !! PairKey partial with
      | Some pair0 =>
        let pair1 :=
          setWitness pair0
                     (MergeWitness (witness pair0) (pwWitness partial)) in
        let c1 := setPairCache (delete (PairKey partial) (pairCache c)) c in
        let pair2 := if isRequest then flipSrcDst pair1 else pair1 in
        queueUpload now pair2 c1 wd
      | None =>
        (setPairCache
           (<[PairKey partial :=
                {| srcIP := SrcIP t;
                   srcPort := uint16 (SrcPort t);
                   dstIP := DstIP t;
                   dstPort := uint16 (DstPort t);
                   witness := pwWitness partial;
                   observationTime := ObservationTime t;
                   id := PairKey partial |}]> (pairCache c)) c,
         wd)
      end
    end in
  match Content t with
  | ContentHTTPRequest _ => pairUp true (ParseHTTP (Content t))
  | ContentHTTPResponse _ => pairUp false (ParseHTTP (Content t))
  | ContentOther _ => (c, wd)
  end.

(** The condition of the deferred function of [Process]. *)
Definition sweepDue (now : Time) (c : BackendCollector) : bool :=
  negb (time.IsZero (lastProcessTime c))
  && (pairCacheCleanupInterval <? time.Sub now (lastProcessTime c)).

(** The deferred function of [Process]. *)
Definition Process_deferred (now : Time) (c : BackendCollector) (wd : World')
  : BackendCollector * World' :=
  let '(c1, wd1) :=
    if sweepDue now c
    then flushPairCache now (time.Add now (-1 * pairCacheExpiration)) c wd
    else (c, wd) in
  (setLastProcessTime now c1, wd1).

(** [Process].  [now] is the [time.Now()] of the deferred function.  The
    [error] result of the source is [nil] on every path and is left out. *)
Definition Process (now : Time) (t : ParsedNetworkTraffic Payload)
    (c : BackendCollector) (wd : World') : BackendCollector * World' :=
  let '(c1, wd1) := Process_body now t c wd in
  Process_deferred now c1 wd1.

(** [Close].  The [error] result is [nil] and is left out. *)
Definition Close (now : Time) (c : BackendCollector) (wd : World')
  : BackendCollector * World' :=
  let '(c1, wd1) := flushPairCache now now c wd in
  let '(b, wd2) := batcher.Close (uploadBatch c1) wd1 in
  (setUploadBatch b c1, wd2).

(** The timer of the batcher firing between two calls of the collector. *)
Definition batchTimer (now : Time) (c : BackendCollector) (wd : World')
  : BackendCollector * World' :=
  let '(b, wd1) := batcher.timeTrigger now (uploadBatch c) wd in
  (setUploadBatch b c, wd1).

End Collector.

Arguments BackendCollector : clear implicits.

(** ** The HAR replay adapter (package [apispec]) *)

(** Decimal rendering of a Go [int], as [%d] prints it. *)
Definition showInt (z : Z) : string := NilZero.string_of_int (Z.to_int z).

Module sampled_err.

(** [sampled_err.Errors]; the three fields are the ones the sources read
    and write. *)
Record Errors := {
  SampleCount : Z;
  Samples : list error;
  TotalCount : Z
}.

(** Modelled from the spec: [Errors.Add] (package
    [akita-libs/sampled_err]) is not among the sources.  Section 4.5: it
    accumulates a bounded sample, the first [SampleCount] messages, plus a
    total error count. *)
Definition Add (err : error) (es : Errors) : Errors :=
  {| SampleCount := SampleCount es;
     Samples :=
       if Z.of_nat (length (Samples es)) <? SampleCount es
       then Samples es ++ [err] else Samples es;
     TotalCount := TotalCount es + 1 |}.

End sampled_err.

Module apispec.

Section Replay.

(** [HarRequest] and [HarResponse] are [har.Request] and
    [har.Response]. *)
Context {Payload HarRequest HarResponse : Type}.

(** [har.Entry], as far as [parseFromHAR] reads it; an absent side is a
    [nil] pointer. *)
Record Entry := {
  Request : option HarRequest;
  Response : option HarResponse;
  StartedDateTime : Time
}.

(** [hl.CustomHARLog] *)
Record CustomHARLog := { Entries : list Entry }.

(** [trace.Collector]; the [error] that [Process] returns is dropped by
    every caller in the sources. *)
Class Collector (C : Type) := {
  CollectorProcess : ParsedNetworkTraffic Payload -> C -> C
}.

(** [req.FromHAR] and [resp.FromHAR], of package [akinet]. *)
Class FromHAR := {
  requestFromHAR : HarRequest -> result (HTTPRequest Payload);
  responseFromHAR : HarResponse -> result (HTTPResponse Payload)
}.

Context {C : Type} `{!Collector C} `{!FromHAR}.

Definition convertRequest (harReq : HarRequest)
  : result (HTTPRequest Payload) := requestFromHAR harReq.

Definition convertResponse (harResp : HarResponse)
  : result (HTTPResponse Payload) := responseFromHAR harResp.

(** The frame [akinet.ParsedNetworkTraffic{ObservationTime: .., Content: ..}];
    the fields left out of the literal have their zero value. *)
Definition frameOf (t : Time) (content : ParsedNetworkContent Payload)
  : ParsedNetworkTraffic Payload :=
  {| SrcIP := []; SrcPort := 0; DstIP := []; DstPort := 0;
     Content := content; ObservationTime := t |}.

(** State of the loop of [parseFromHAR]: the two local variables, the
    collector and the lines sent to [printer.Debugf]. *)
Record LoopState := {
  successfulEntries : Z;
  errs : sampled_err.Errors;
  col : C;
  printed : list string
}.

(** The request half of the loop body; the result pairs [entrySuccess]
    with the state. *)
Definition requestSide (harUUID : UUID) (i : Z) (entry : Entry)
    (st : LoopState) : bool * LoopState :=
  match Request entry with
  | None => (true, st)
  | Some r =>
    match convertRequest r with
    | Ok req =>
      let req' := {| reqStreamID := harUUID; reqSeq := i;
                     reqPayload := reqPayload req |} in
      (true,
       {| successfulEntries := successfulEntries st;
          errs := errs st;
          col := CollectorProcess
                   (frameOf (StartedDateTime entry) (ContentHTTPRequest req'))
                   (col st);
          printed := printed st |})
    | Err err =>
      (false,
       {| successfulEntries := successfulEntries st;
          errs := sampled_err.Add err (errs st);
          col := col st;
          printed :=
            printed st ++
            [Wrap err ("failed to convert HAR request, index=" +:+ showInt i)
             +:+ String (Ascii.ascii_of_nat 10) EmptyString] |})
    end
  end.

(** The response half of the loop body. *)
Definition responseSide (harUUID : UUID) (i : Z) (entry : Entry)
    (entrySuccess : bool) (st : LoopState) : bool * LoopState :=
  match Response entry with
  | None => (entrySuccess, st)
  | Some r =>
    match convertResponse r with
    | Ok resp =>
      let resp' := {| respStreamID := harUUID; respSeq := i;
                      respPayload := respPayload resp |} in
      (entrySuccess,
       {| successfulEntries := successfulEntries st;
          errs := errs st;
          col := CollectorProcess
                   (frameOf (StartedDateTime entry) (ContentHTTPResponse resp'))
                   (col st);
          printed := printed st |})
    | Err err =>
      (false,
       {| successfulEntries := successfulEntries st;
          errs := sampled_err.Add err (errs st);
          col := col st;
          printed :=
            printed st ++
            [Wrap err ("failed to convert HAR response, index=" +:+ showInt i)
             +:+ String (Ascii.ascii_of_nat 10) EmptyString] |})
    end
  end.

(** One iteration of the loop, for the entry at index [i]. *)
Definition entryStep (harUUID : UUID) (i : Z) (entry : Entry)
    (st : LoopState) : LoopState :=
  let '(ok1, st1) := requestSide harUUID i entry st in
  let '(ok2, st2) := responseSide harUUID i entry ok1 st1 in
  if ok2 then
    {| successfulEntries := successfulEntries st2 + 1;
       errs := errs st2; col := col st2; printed := printed st2 |}
  else st2.

(** [for i, entry := range log.Entries], from index [i] on. *)
Fixpoint entriesLoop (harUUID : UUID) (i : Z) (entries : list Entry)
    (st : LoopState) : LoopState :=
  match entries with
  | [] => st
  | entry :: rest => entriesLoop harUUID (i + 1) rest (entryStep harUUID i entry st)
  end.

(** [parseFromHAR].  [harUUID] is the value of [uuid.New()]; next to the
    two results of the source, the final state carries the collector and
    the debug output. *)
Definition parseFromHAR (harUUID : UUID) (c : C) (log : CustomHARLog)
  : LoopState :=
  entriesLoop harUUID 0 (Entries log)
    {| successfulEntries := 0;
       errs := {| sampled_err.SampleCount := 3;
                  sampled_err.Samples := [];
                  sampled_err.TotalCount := 0 |};
       col := c;
       printed := [] |}.

(** *** Vocabulary of the statements about the replay *)

(** The request side of an entry is absent or converts; the same for the
    response side; an entry is fully successful when both hold. *)
Definition requestOK (entry : Entry) : bool :=
  match Request entry with
  | None => true
  | Some r => match convertRequest r with Ok _ => true | Err _ => false end
  end.

Definition responseOK (entry : Entry) : bool :=
  match Response entry with
  | None => true
  | Some r => match convertResponse r with Ok _ => true | Err _ => false end
  end.

Definition fullyOK (entry : Entry) : bool := requestOK entry && responseOK entry.

(** The conversion errors of an entry, request side first. *)
Definition entryErrors (entry : Entry) : list error :=
  match Request entry with
  | Some r => match convertRequest r with Ok _ => [] | Err err => [err] end
  | None => []
  end ++
  match Response entry with
  | Some r => match convertResponse r with Ok _ => [] | Err err => [err] end
  | None => []
  end.

(** The frames made of the sides of an entry that convert, request side
    first, for the entry at index [i]. *)
Definition entryFrames (harUUID : UUID) (i : Z) (entry : Entry)
  : list (ParsedNetworkTraffic Payload) :=
  match Request entry with
  | Some r =>
    match convertRequest r with
    | Ok req =>
      [frameOf (StartedDateTime entry)
               (ContentHTTPRequest {| reqStreamID := harUUID; reqSeq := i;
                                      reqPayload := reqPayload req |})]
    | Err _ => []
    end
  | None => []
  end ++
  match Response entry with
  | Some r =>
    match convertResponse r with
    | Ok resp =>
      [frameOf (StartedDateTime entry)
               (ContentHTTPResponse {| respStreamID := harUUID; respSeq := i;
                                       respPayload := respPayload resp |})]
    | Err _ => []
    end
  | None => []
  end.

(** The same for a list of entries, the first of which has index [i]. *)
Fixpoint framesFrom (harUUID : UUID) (i : Z) (entries : list Entry)
  : list (ParsedNetworkTraffic Payload) :=
  match entries with
  | [] => []
  | entry :: rest => entryFrames harUUID i entry ++ framesFrom harUUID (i + 1) rest
  end.

Definition allErrors (entries : list Entry) : list error :=
  concat (map entryErrors entries).

End Replay.

Arguments Entry : clear implicits.
Arguments CustomHARLog : clear implicits.
Arguments Collector : clear implicits.
Arguments FromHAR : clear implicits.
Arguments LoopState : clear implicits.

End apispec.

(** ** The REST transport (package [rest]) *)

(** The double quote character, for messages that contain one. *)
Definition dq : string := String (Ascii.ascii_of_nat 34) EmptyString.

Module rest.

Definition defaultClientTimeout : Duration := 5 * time.Second.

(** Error type for non-2xx HTTP errors. *)
Record HTTPError := { StatusCode : Z; Body : string }.

Definition invalidCredentials : string :=
  "Invalid credentials, run " +:+ dq +:+ "login" +:+ dq +:+
  " or use AKITA_API_KEY_SECRET environment variable".

(** [func (he HTTPError) Error() string] *)
Definition HTTPError_Error (he : HTTPError) : string :=
  if StatusCode he =? 401 then invalidCredentials
  else "received status code " +:+ showInt (StatusCode he) +:+
       ", body: " +:+ Body he.

(** The [error] values [sendRequest] returns: messages built by
    [errors.New] and [errors.Wrap], errors of the HTTP client passed
    through, and [HTTPError]. *)
Inductive Error :=
| Plain (msg : string)
| IsHTTPError (he : HTTPError).

Definition Error_string (e : Error) : string :=
  match e with
  | Plain msg => msg
  | IsHTTPError he => HTTPError_Error he
  end.

(** [http.Request], as far as [sendRequest] touches it: [Header] is the
    header map, from names to lists of values; [Rest] stands for everything
    else, the context the caller gave the request included. *)
Record Request := {
  Header : gmap string (list string);
  Rest : string
}.

(** The bytes a header name may be made of ([validHeaderFieldByte] of Go's
    [net/textproto]): letters, digits and the token punctuation. *)
Definition validHeaderFieldByte (c : Ascii.ascii) : bool :=
  let n := Ascii.N_of_ascii c in
  ((97 <=? n) && (n <=? 122) || (65 <=? n) && (n <=? 90) ||
   (48 <=? n) && (n <=? 57) ||
   existsb (N.eqb n) [33; 35; 36; 37; 38; 39; 42; 43; 45; 46; 94; 95; 96;
                      124; 126])%N.

Fixpoint validHeaderKey (s : string) : bool :=
  match s with
  | EmptyString => true
  | String c rest => validHeaderFieldByte c && validHeaderKey rest
  end.

(** The loop of [canonicalMIMEHeaderKey]: a lower-case letter is made upper
    case at the start and after a hyphen, an upper-case letter is made lower
    case elsewhere; [upper] says which of the two applies to the next
    byte. *)
Fixpoint canonicalBytes (upper : bool) (s : string) : string :=
  match s with
  | EmptyString => EmptyString
  | String c rest =>
    let n := Ascii.N_of_ascii c in
    let c' :=
      if (upper && (97 <=? n) && (n <=? 122))%N
      then Ascii.ascii_of_N (n - 32)
      else if (negb upper && (65 <=? n) && (n <=? 90))%N
           then Ascii.ascii_of_N (n + 32)
           else c in
    String c' (canonicalBytes (N.eqb (Ascii.N_of_ascii c') 45) rest)
  end.

(** [textproto.CanonicalMIMEHeaderKey] of the Go standard library: a name
    made of valid bytes only is put in canonical form ([User-Agent]); a name
    with a space or any other invalid byte is returned as it is. *)
Definition CanonicalMIMEHeaderKey (s : string) : string :=
  if validHeaderKey s then canonicalBytes true s else s.

(** [http.Header.Set]: the values filed under the canonical form of [key]
    are replaced by the single value [value]. *)
Definition HeaderSet (key value : string) (r : Request) : Request :=
  {| Header := <[CanonicalMIMEHeaderKey key := [value]]> (Header r);
     Rest := Rest r |}.

(** [base64.StdEncoding.EncodeToString] of the Go standard library: three
    bytes give four characters of the alphabet [A-Za-z0-9+/]; a last group
    of one or two bytes is padded with [=]. *)
Definition base64Char (n : N) : Ascii.ascii :=
  (if n <? 26 then Ascii.ascii_of_N (65 + n)
   else if n <? 52 then Ascii.ascii_of_N (97 + (n - 26))
   else if n <? 62 then Ascii.ascii_of_N (48 + (n - 52))
   else if n =? 62 then Ascii.ascii_of_N 43
   else Ascii.ascii_of_N 47)%N.

Fixpoint base64Bytes (bs : list N) : string :=
  match bs with
  | [] => EmptyString
  | [a] =>
    (String (base64Char (a / 4))
       (String (base64Char (a mod 4 * 16)) "=="))%N
  | [a; b] =>
    (String (base64Char (a / 4))
       (String (base64Char (a mod 4 * 16 + b / 16))
          (String (base64Char (b mod 16 * 4)) "=")))%N
  | a :: b :: c :: rest =>
    (String (base64Char (a / 4))
       (String (base64Char (a mod 4 * 16 + b / 16))
          (String (base64Char (b mod 16 * 4 + c / 64))
             (String (base64Char (c mod 64)) (base64Bytes rest)))))%N
  end.

Definition base64 (s : string) : string :=
  base64Bytes (map Ascii.N_of_ascii (String.list_ascii_of_string s)).

(** [basicAuth] of [net/http]. *)
Definition basicAuth (username password : string) : string :=
  base64 (username +:+ ":" +:+ password).

(** [http.Request.SetBasicAuth]: the credentials go into the
    [Authorization] header. *)
Definition SetBasicAuth (username password : string) (r : Request) : Request :=
  HeaderSet "Authorization" ("Basic " +:+ basicAuth username password) r.

(** [http.Response]: the status code and the outcome of
    [ioutil.ReadAll(resp.Body)]. *)
Record Response := { RespStatusCode : Z; ReadAll : result string }.

(** What [sendRequest] reads from its environment: [cfg], [viper],
    [version] and [GetUserAgent]. *)
Record Config := {
  apiKeyID : string;
  apiKeySecret : string;
  dogfood : bool;
  userAgent : string;
  gitVersion : string
}.

Section Transport.

(** [Net] is the state of the network behind [HTTPClient]. *)
Context {Net : Type}.

(** [retryablehttp.FromRequest] and [HTTPClient.Do]. *)
Class HTTPClient := {
  FromRequest : Request -> result Request;
  Do : Net -> Request -> Net * result Response
}.

Context `{!HTTPClient}.

(** The network together with the requests handed to [HTTPClient.Do],
    in order. *)
Record Wire := { net : Net; sent : list Request }.

(** [sendRequest].  [ctx] is the timeout of the caller's context, if it
    has a deadline.  The source derives a context with the default timeout
    when there is none, and uses it no further: the request goes out with
    the context it came with. *)
Definition sendRequest (cfg : Config) (ctx : option Duration)
    (req : Request) (w : Wire) : Wire * (Error + string) :=
  let ctx' : Duration := match ctx with
                         | Some d => d
                         | None => defaultClientTimeout
                         end in
  if String.eqb (apiKeyID cfg) "" then
    (w, inl (Plain ("API key ID not found, run " +:+ dq +:+ "login" +:+ dq +:+
                    " or use AKITA_API_KEY_ID environment variable")))
  else if String.eqb (apiKeySecret cfg) "" then
    (w, inl (Plain ("API key secret not found, run " +:+ dq +:+ "login" +:+ dq +:+
                    " or use AKITA_API_KEY_SECRET environment variable")))
  else
    let req1 := SetBasicAuth (apiKeyID cfg) (apiKeySecret cfg) req in
    let req2 := HeaderSet "user-agent" (userAgent cfg) req1 in
    let req3 := HeaderSet "x-akita-cli-git-version" (gitVersion cfg) req2 in
    let req4 := if dogfood cfg then HeaderSet "x-akita-dogfood" "true" req3
                else req3 in
    match FromRequest req4 with
    | Err err =>
      (w, inl (Plain (Wrap err "failed to convert HTTP request into retryable request")))
    | Ok retryableReq =>
      let '(n, r) := Do (net w) retryableReq in
      let w' := {| net := n; sent := sent w ++ [retryableReq] |} in
      match r with
      | Err err => (w', inl (Plain err))
      | Ok resp =>
        match ReadAll resp with
        | Err err => (w', inl (Plain (Wrap err "failed to read response body")))
        | Ok respBody =>
          if (RespStatusCode resp <? 200) || (299 <? RespStatusCode resp)
          then (w', inl (IsHTTPError {| StatusCode := RespStatusCode resp;
                                        Body := respBody |}))
          else (w', inr respBody)
        end
      end
    end.

(** The request as [sendRequest] hands it to [retryablehttp.FromRequest]:
    with the credentials and the headers set. *)
Definition decorate (cfg : Config) (req : Request) : Request :=
  let req1 := SetBasicAuth (apiKeyID cfg) (apiKeySecret cfg) req in
  let req2 := HeaderSet "user-agent" (userAgent cfg) req1 in
  let req3 := HeaderSet "x-akita-cli-git-version" (gitVersion cfg) req2 in
  if dogfood cfg then HeaderSet "x-akita-dogfood" "true" req3 else req3.

End Transport.

Arguments HTTPClient : clear implicits.
Arguments Wire : clear implicits.

End rest.

(** ** The [apidump] command (package [cmd/apidump]) *)

Module apidump.

Section Cmd.

Context {Net Frames Ingest : Type} `{!rest.HTTPClient Net}.

(** Modelled from the spec: [apidump.Run] is not among the sources.
    Section 7: missing or invalid credentials are fatal before any
    ingestion starts, and are surfaced to the caller.  [Run] first sends
    the request [startup] that opens the session, through
    [rest.sendRequest]; when that fails it returns the error; only
    otherwise does it start ingestion ([ingest]) over the captured
    frames. *)
Definition Run (cfg : rest.Config) (startup : rest.Request)
    (ingest : Frames -> Ingest -> Ingest) (frames : Frames)
    (s : rest.Wire Net * Ingest)
  : rest.Wire Net * Ingest * option rest.Error :=
  match rest.sendRequest cfg None startup s.1 with
  | (w, inl err) => (w, s.2, Some err)
  | (w, inr _) => (w, ingest frames s.2, None)
  end.

(** [cmderr.AkitaErr{Err: err}] and the errors made by [errors.Wrap]. *)
Inductive CmdError :=
| Wrapped (msg : string)
| AkitaErr (err : rest.Error).

(** [Cmd.RunE].  [tags] and [plugins] are the outcomes of
    [tags.FromPairs(tagsFlag)] and [pluginloader.Load(pluginsFlag)];
    [run] is [apidump.Run] applied to the arguments built from them. *)
Definition RunE {T P S : Type} (tags : result T) (plugins : result P)
    (run : T -> P -> S -> S * option rest.Error) (s : S)
  : S * option CmdError :=
  match tags with
  | Err err => (s, Some (Wrapped (Wrap err "failed to parse tags")))
  | Ok tgs =>
    match plugins with
    | Err err => (s, Some (Wrapped (Wrap err "failed to load plugins")))
    | Ok ps =>
      match run tgs ps s with
      | (s', Some err) => (s', Some (AkitaErr err))
      | (s', None) => (s', None)
      end
    end
  end.

End Cmd.

End apidump.

(** ** Vocabulary of the statements *)

Section Vocabulary.

Context {Method ExtState Payload : Type}.
Context `{!Externals Method ExtState Payload}.

(** The records that entered [queueUpload], in order, according to a
    trace. *)
Definition handed (tr : list (Event Method)) : list (witnessWithInfo Method) :=
  omap (fun e => match e with EvQueueUpload w => Some w | _ => None end) tr.

(** The submissions to the remote service, in order, according to a
    trace. *)
Definition submissions (tr : list (Event Method))
  : list (Duration * LearnSessionID * list WitnessReport) :=
  omap (fun e => match e with
                 | EvReportWitnesses d l rs => Some (d, l, rs)
                 | _ => None
                 end) tr.

(** The transform chain as section 4.2 of the specification words it: the
    plugins run in registration order, each on the method as the earlier
    ones left it; the first one to return an error ends the run.
    [chainRun ps x m calls x' m' r]: from external state [x] and method
    [m], the run makes the calls [calls] (plugin name and argument) and
    ends in [x'] and [m'], vetoed by the plugin and error in [r], if
    any. *)
Inductive chainRun :
  list (AkitaPlugin Method ExtState) -> ExtState -> Method ->
  list (string * Method) -> ExtState -> Method ->
  option (string * error) -> Prop :=
| chain_done x m : chainRun [] x m [] x m None
| chain_veto p ps x m x' m' e :
    Transform p x m = (x', m', Some e) ->
    chainRun (p :: ps) x m [(Name p, m)] x' m' (Some (Name p, e))
| chain_next p ps x m x' m' calls x'' m'' r :
    Transform p x m = (x', m', None) ->
    chainRun ps x' m' calls x'' m'' r ->
    chainRun (p :: ps) x m ((Name p, m) :: calls) x'' m'' r.

Definition transformEvents (calls : list (string * Method))
  : list (Event Method) :=
  map (fun c => EvTransform c.1 c.2) calls.

(** The reports of the items of a batch that convert, in order. *)
Definition okReports (d : NetworkDirection) (items : list (witnessWithInfo Method))
  : list WitnessReport :=
  omap (fun w => match toReport w d with Ok r => Some r | Err _ => None end)
       items.

(** The warnings for the items of a batch that do not convert, in order. *)
Definition conversionWarnings (d : NetworkDirection)
    (items : list (witnessWithInfo Method)) : list (Event Method) :=
  omap (fun w => match toReport w d with
                 | Ok _ => None
                 | Err err =>
                   Some (EvPrint LWarning
                           "Failed to convert witness to report: %v\n" [err])
                 end) items.

(** Every cached record is filed under its own identifier. *)
Definition cacheWF (c : BackendCollector Method ExtState) : Prop :=
  map_Forall (fun k e => id e = k) (pairCache c).

(** A cached record is expired with respect to a cutoff. *)
Definition expired (cutoffTime : Time) (ke : WitnessID * witnessWithInfo Method)
  : Prop := time.Before (observationTime ke.2) cutoffTime = true.

Global Instance expired_dec cutoffTime ke : Decision (expired cutoffTime ke).
Proof. unfold expired. apply _. Defined.

(** Kind of a frame. *)
Definition isRequest (t : ParsedNetworkTraffic Payload) : bool :=
  match Content t with ContentHTTPRequest _ => true | _ => false end.

Definition isResponse (t : ParsedNetworkTraffic Payload) : bool :=
  match Content t with ContentHTTPResponse _ => true | _ => false end.

(** The cache entry [Process] files for an unmatched frame. *)
Definition entryOf (t : ParsedNetworkTraffic Payload) (p : PartialWitness)
  : witnessWithInfo Method :=
  {| srcIP := SrcIP t; srcPort := uint16 (SrcPort t);
     dstIP := DstIP t; dstPort := uint16 (DstPort t);
     observationTime := ObservationTime t; id := PairKey p;
     witness := pwWitness p |}.

(** The record [Process] hands to [queueUpload] when a frame with the
    partial witness [p] finds the entry [e] cached under its pairing key;
    [req] tells whether the frame is a request. *)
Definition pairedRecord (req : bool) (e : witnessWithInfo Method)
    (p : PartialWitness) : witnessWithInfo Method :=
  let merged := setWitness e (MergeWitness (witness e) (pwWitness p)) in
  if req then flipSrcDst merged else merged.

End Vocabulary.

Section Invariants.

Context {Method ExtState Payload : Type}.
Context `{!Externals Method ExtState Payload}.

(** The parts of a collector that no operation changes after
    [NewBackendCollector]. *)
Definition config (c : BackendCollector Method ExtState) :=
  (serviceID c, learnSessionID c, learnClient c, dir c, plugins c,
   batcher.processBatch (uploadBatch c), batcher.maxSize (uploadBatch c),
   batcher.flushDuration (uploadBatch c)).

(** The upload batch flushes through [uploadWitnesses] of its own collector,
    with the limits [NewBackendCollector] gives it. *)
Definition batchWired (c : BackendCollector Method ExtState) : Prop :=
  batcher.processBatch (uploadBatch c) =
    uploadWitnesses (dir c) (learnClient c) (learnSessionID c) /\
  batcher.maxSize (uploadBatch c) = uploadBatchMaxSize /\
  batcher.flushDuration (uploadBatch c) = uploadBatchFlushDuration.

(** The entries a sweep of the pair cache with the given cutoff hands to
    [queueUpload], in the order of the loop. *)
Definition victims (cutoffTime : Time) (c : BackendCollector Method ExtState)
  : list (WitnessID * witnessWithInfo Method) :=
  filter (expired cutoffTime) (rangeOrder (pairCache c)).

(** [emitsOnce cutoffTime c wd s]: on the way from the collector [c] and the
    world [wd] to the state [s], the entries of the pair cache of [c]
    observed before [cutoffTime], and no others, were handed to
    [queueUpload], each once and as cached, and were removed from the cache,
    so that no later sweep finds them; all other entries are still
    cached. *)
Definition emitsOnce (cutoffTime : Time) (c : BackendCollector Method ExtState)
    (wd : World Method ExtState)
    (s : BackendCollector Method ExtState * World Method ExtState) : Prop :=
  exists es : list (WitnessID * witnessWithInfo Method),
    handed (trace s.2) = handed (trace wd) ++ es.*2 /\
    NoDup es.*1 /\
    (forall k e, (k, e) ∈ es <->
                 pairCache c !! k = Some e /\ observationTime e < cutoffTime) /\
    (forall k e, pairCache c !! k = Some e -> observationTime e < cutoffTime ->
                 pairCache s.1 !! k = None) /\
    (forall k e, pairCache c !! k = Some e -> cutoffTime <= observationTime e ->
                 pairCache s.1 !! k = Some e) /\
    (forall k, pairCache c !! k = None -> pairCache s.1 !! k = None) /\
    (forall cutoff' k, k ∈ es.*1 -> k ∉ (victims cutoff' s.1).*1).

(** Every cached record holds one side only: it is the entry filed for one
    frame, under the pairing key of that frame. *)
Definition oneSided (c : BackendCollector Method ExtState) : Prop :=
  map_Forall
    (fun k e => exists (t : ParsedNetworkTraffic Payload) p,
                  ParseHTTP (Content t) = Ok p /\ e = entryOf t p /\
                  PairKey p = k)
    (pairCache c).

(** The collectors a program can hold: made by [NewBackendCollector] and
    then driven by [Process] and [Close], the timer of the batcher firing in
    between; the world outside is arbitrary at every step. *)
Inductive reachable : BackendCollector Method ExtState -> Prop :=
| reach_new svc lrn lc d ps :
    reachable (NewBackendCollector svc lrn lc d ps)
| reach_Process now (t : ParsedNetworkTraffic Payload) c wd :
    reachable c -> reachable (Process now t c wd).1
| reach_Close now c wd :
    reachable c -> reachable (Close now c wd).1
| reach_timer now c wd :
    reachable c -> reachable (batchTimer now c wd).1.

(** The collector between two of its calls: nothing runs but the timer of
    the batcher, at the instants [ticks]. *)
Definition idle (ticks : list Time) (c : BackendCollector Method ExtState)
    (wd : World Method ExtState)
  : BackendCollector Method ExtState * World Method ExtState :=
  foldl (fun s now => batchTimer now s.1 s.2) (c, wd) ticks.

End Invariants.

(** ** A concrete instance, for the scenarios *)

Module Demo.

(** Methods and payloads are strings; the external state counts the
    batches the remote service accepted. *)
Definition parse (c : ParsedNetworkContent string)
  : result (@PartialWitness string) :=
  match c with
  | ContentHTTPRequest r =>
    if String.eqb (reqPayload r) "" then Err "malformed request"
    else Ok {| pwWitness := {| wMethod := "req " +:+ reqPayload r |};
               PairKey := (reqStreamID r + Z.to_N (reqSeq r))%N |}
  | ContentHTTPResponse r =>
    if String.eqb (respPayload r) "" then Err "malformed response"
    else Ok {| pwWitness := {| wMethod := "resp " +:+ respPayload r |};
               PairKey := (respStreamID r + Z.to_N (respSeq r))%N |}
  | ContentOther _ => Err "not HTTP"
  end.

Definition merge (dst src : Witness string) : Witness string :=
  {| wMethod := wMethod dst +:+ " | " +:+ wMethod src |}.

Definition hash (w : Witness string) : result string :=
  if String.eqb (wMethod w) "" then Err "empty message"
  else Ok ("h:" +:+ wMethod w).

Definition marshal (w : Witness string) : result (list Byte.byte) :=
  Ok (String.list_byte_of_string (wMethod w)).

Definition redact (x : nat) (m : string) : nat * string := (x, "#" +:+ m).

#[global] Instance externals : Externals string nat string :=
  {| ParseHTTP := parse;
     MergeWitness := merge;
     HashProto := hash;
     Marshal := marshal;
     EncodeToString := String.string_of_list_byte;
     obfuscate := redact;
     rangeOrder := map_to_list;
     rangeOrder_perm := fun m => reflexivity (map_to_list m) |}.

(** A remote service that accepts every batch, and one that refuses. *)
Definition accepting : LearnClient nat :=
  {| ReportWitnesses := fun x _ _ => (S x, None) |}.

Definition refusing : LearnClient nat :=
  {| ReportWitnesses := fun x _ _ => (x, Some "503 Service Unavailable") |}.

(** A plugin that marks the method and one that vetoes responses. *)
Definition tagger : AkitaPlugin string nat :=
  {| Name := "tagger"; Transform := fun x m => (x, m +:+ "!", None) |}.

Definition strict : AkitaPlugin string nat :=
  {| Name := "strict";
     Transform := fun x m =>
       (x, m, if String.prefix "resp" m then Some "responses not allowed"
              else None) |}.

Definition world0 : World string nat := {| ext := 0%nat; trace := [] |}.

Definition collector0 : BackendCollector string nat :=
  NewBackendCollector 1%N 2%N accepting Inbound [].

Definition client : IP := [Byte.x0a; Byte.x00; Byte.x00; Byte.x02].
Definition server : IP := [Byte.x0a; Byte.x00; Byte.x00; Byte.x01].

(** A request from the client to the server and the response to it, on the
    stream 40 at sequence number 2: both parse to the pairing key 42. *)
Definition requestFrame (t : Time) : ParsedNetworkTraffic string :=
  {| SrcIP := client; SrcPort := 51000; DstIP := server; DstPort := 80;
     Content := ContentHTTPRequest
                  {| reqStreamID := 40%N; reqSeq := 2; reqPayload := "GET /" |};
     ObservationTime := t |}.

Definition responseFrame (t : Time) : ParsedNetworkTraffic string :=
  {| SrcIP := server; SrcPort := 80; DstIP := client; DstPort := 51000;
     Content := ContentHTTPResponse
                  {| respStreamID := 40%N; respSeq := 2; respPayload := "200" |};
     ObservationTime := t |}.

(** A frame that is not HTTP. *)
Definition otherFrame (t : Time) : ParsedNetworkTraffic string :=
  {| SrcIP := client; SrcPort := 51000; DstIP := server; DstPort := 443;
     Content := ContentOther "tls";
     ObservationTime := t |}.

(** Seconds on the clock of the scenarios. *)
Definition sec (n : Z) : Time := n * time.Second.

(** A record with an empty message, which [hash] refuses. *)
Definition unhashable : witnessWithInfo string :=
  {| srcIP := client; srcPort := 51000; dstIP := server; dstPort := 80;
     observationTime := sec 1; id := 7%N; witness := {| wMethod := "" |} |}.

Definition hashable (k : N) : witnessWithInfo string :=
  {| srcIP := client; srcPort := 51000; dstIP := server; dstPort := 80;
     observationTime := sec 1; id := k; witness := {| wMethod := "GET /" |} |}.

(** The partial witnesses [parse] makes of the two frames. *)
Definition requestPartial : @PartialWitness string :=
  {| pwWitness := {| wMethod := "req GET /" |}; PairKey := 42%N |}.

Definition responsePartial : @PartialWitness string :=
  {| pwWitness := {| wMethod := "resp 200" |}; PairKey := 42%N |}.

(** A collector whose previous [Process] call, on a frame that is not HTTP,
    was made at second 100. *)
Definition warmCollector : BackendCollector string nat * World string nat :=
  Process (sec 100) (otherFrame (sec 100)) collector0 world0.

(** A collector that filed, at second 100, a request observed then. *)
Definition cachedRequest : BackendCollector string nat * World string nat :=
  Process (sec 100) (requestFrame (sec 100)) collector0 world0.

(** A collector that filed, at second 200 of its clock, a response stamped
    one minute ahead of that clock, as an entry of a replayed archive can
    be. *)
Definition cachedResponse : BackendCollector string nat * World string nat :=
  Process (sec 200) (responseFrame (sec 260)) collector0 world0.

(** Nine records queued at second 1. *)
Definition nineQueued : list (Time * witnessWithInfo string) :=
  replicate 9 (sec 1, hashable 1%N).

(** Replay: sides are strings, the empty string is malformed; the collector
    keeps the frames it is fed. *)
#[global] Instance fromHAR : apispec.FromHAR string string string :=
  {| apispec.requestFromHAR := fun s =>
       if String.eqb s "" then Err "malformed request"
       else Ok {| reqStreamID := 0%N; reqSeq := 0; reqPayload := s |};
     apispec.responseFromHAR := fun s =>
       if String.eqb s "" then Err "malformed response"
       else Ok {| respStreamID := 0%N; respSeq := 0; respPayload := s |} |}.

#[global] Instance recorder
  : apispec.Collector string (list (ParsedNetworkTraffic string)) :=
  {| apispec.CollectorProcess := fun f fs => fs ++ [f] |}.

Definition goodEntry (t : Z) : apispec.Entry string string :=
  {| apispec.Request := Some "GET /"; apispec.Response := Some "200";
     apispec.StartedDateTime := sec t |}.

Definition badResponseEntry (t : Z) : apispec.Entry string string :=
  {| apispec.Request := Some "GET /"; apispec.Response := Some "";
     apispec.StartedDateTime := sec t |}.

(** An archive of 10 entries, 3 of which have a malformed response. *)
Definition archive : apispec.CustomHARLog string string :=
  {| apispec.Entries :=
       [goodEntry 1; goodEntry 2; badResponseEntry 3; goodEntry 4;
        goodEntry 5; badResponseEntry 6; goodEntry 7; goodEntry 8;
        badResponseEntry 9; goodEntry 10] |}.

(** A network that answers every request with the given status and body,
    and counts the requests. *)
Definition answering (status : Z) (body : string) : rest.HTTPClient nat :=
  {| rest.FromRequest := fun r => Ok r;
     rest.Do := fun n _ =>
       (S n, Ok {| rest.RespStatusCode := status; rest.ReadAll := Ok body |}) |}.

Definition credentials : rest.Config :=
  {| rest.apiKeyID := "apk_1"; rest.apiKeySecret := "secret";
     rest.dogfood := false; rest.userAgent := "akita-cli";
     rest.gitVersion := "abc123" |}.

Definition noCredentials : rest.Config :=
  {| rest.apiKeyID := ""; rest.apiKeySecret := "";
     rest.dogfood := false; rest.userAgent := "akita-cli";
     rest.gitVersion := "abc123" |}.

Definition openSession : rest.Request :=
  {| rest.Header := ∅; rest.Rest := "POST /v1/learn" |}.

Definition wire0 : rest.Wire nat := {| rest.net := 0%nat; rest.sent := [] |}.

End Demo.

(** ** [processHAR] (package [apispec]) *)

Section ProcessHAR.

Context {Payload HarRequest HarResponse C : Type}.
Context `{!apispec.Collector Payload C}.
Context `{!apispec.FromHAR Payload HarRequest HarResponse}.

(** [hl.CustomHAR], as far as [processHAR] reads it: the log and the flag
    [AkitaExt.Outbound]. *)
Record CustomHAR := {
  Log : apispec.CustomHARLog HarRequest HarResponse;
  AkitaExtOutbound : bool
}.

(** What [processHAR] leaves behind: the two collectors (two distinct
    objects), the lines sent to [printer.Stderr.Warningf] (format and
    arguments) and to [printer.Debugf], and the [error] it returns. *)
Record HARResult := {
  inboundCol : C;
  outboundCol : C;
  warnings : list (string * list string);
  debugLines : list string;
  returned : option error
}.

(** [processHAR].  [load] is [hl.LoadCustomHARFromFile] and [harUUID] the
    value of [uuid.New()] in [parseFromHAR]. *)
Definition processHAR (load : string -> result CustomHAR) (harUUID : UUID)
    (inCol outCol : C) (p : string) : HARResult :=
  match load p with
  | Err err =>
    {| inboundCol := inCol; outboundCol := outCol; warnings := [];
       debugLines := [];
       returned := Some (Wrap err ("failed to load HAR file " +:+ p)) |}
  | Ok harContent =>
    let col := if AkitaExtOutbound harContent then outCol else inCol in
    let r := apispec.parseFromHAR harUUID col (Log harContent) in
    let successCount := apispec.successfulEntries r in
    let errs := apispec.errs r in
    let ws :=
      if 0 <? sampled_err.TotalCount errs then
        let entriesCount :=
          Z.of_nat (length (apispec.Entries (Log harContent))) in
        [("Encountered errors with %d HAR file entries.\n",
          [showInt (entriesCount - successCount)]);
         ("Akita will ignore entries with errors and generate a spec from the %d entries successfully processed.\n",
          [showInt successCount]);
         ("Sample errors:\n", [])] ++
        map (fun e => ("\t- %s\n", [e])) (sampled_err.Samples errs)
      else [] in
    {| inboundCol := if AkitaExtOutbound harContent then inCol
                     else apispec.col r;
       outboundCol := if AkitaExtOutbound harContent then apispec.col r
                      else outCol;
       warnings := ws;
       debugLines := apispec.printed r;
       returned := None |}
  end.

(** A frame as the replay makes it from the entry [entry] at index [i]:
    the time of the entry, no addressing, and a request or a response
    carrying the identifier of the replay and the index. *)
Definition replayFrameAt (harUUID : UUID) (i : nat)
    (entry : apispec.Entry HarRequest HarResponse)
    (f : ParsedNetworkTraffic Payload) : Prop :=
  ObservationTime f = apispec.StartedDateTime entry /\
  SrcIP f = [] /\ SrcPort f = 0 /\ DstIP f = [] /\ DstPort f = 0 /\
  ((exists r, Content f = ContentHTTPRequest r /\
              reqStreamID r = harUUID /\ reqSeq r = Z.of_nat i) \/
   (exists r, Content f = ContentHTTPResponse r /\
              respStreamID r = harUUID /\ respSeq r = Z.of_nat i)).

(** The frames [fs] are those of the entry [entry] at index [i]: the request
    of the entry, if it has one and it converts, then its response
    likewise; each carries the payload of the side it was converted
    from. *)
Definition entryReplay (harUUID : UUID) (i : nat)
    (entry : apispec.Entry HarRequest HarResponse)
    (fs : list (ParsedNetworkTraffic Payload)) : Prop :=
  exists rq rs,
    fs = rq ++ rs /\
    Forall (replayFrameAt harUUID i entry) fs /\
    match apispec.Request entry with
    | Some h =>
      match apispec.convertRequest h with
      | Ok req => exists f r, rq = [f] /\ Content f = ContentHTTPRequest r /\
                              reqPayload r = reqPayload req
      | Err _ => rq = []
      end
    | None => rq = []
    end /\
    match apispec.Response entry with
    | Some h =>
      match apispec.convertResponse h with
      | Ok resp => exists f r, rs = [f] /\ Content f = ContentHTTPResponse r /\
                               respPayload r = respPayload resp
      | Err _ => rs = []
      end
    | None => rs = []
    end.

End ProcessHAR.

Arguments CustomHAR : clear implicits.
Arguments HARResult : clear implicits.

(** ** More vocabulary for the collector *)

Section MoreVocabulary.

Context {Method : Type}.

(** Both ports of a record are 16-bit numbers. *)
Definition portsInRange (e : witnessWithInfo Method) : Prop :=
  0 <= srcPort e < 2 ^ 16 /\ 0 <= dstPort e < 2 ^ 16.

(** An item of a batch converts to a report. *)
Definition converts {ExtState Payload : Type}
    `{!Externals Method ExtState Payload}
    (d : NetworkDirection) (w : witnessWithInfo Method) : bool :=
  match toReport w d with Ok _ => true | Err _ => false end.

(** The report [r] is the envelope of the record [w] for the direction
    [d]: addressing, time and identifier of the record, the hash and the
    encoded serialization of its witness. *)
Definition envelopeOf {ExtState Payload : Type}
    `{!Externals Method ExtState Payload}
    (d : NetworkDirection) (w : witnessWithInfo Method) (r : WitnessReport)
  : Prop :=
  Direction r = d /\
  OriginAddr r = srcIP w /\ OriginPort r = srcPort w /\
  DestinationAddr r = dstIP w /\ DestinationPort r = dstPort w /\
  ClientWitnessTime r = observationTime w /\ ID r = id w /\
  HashProto (witness w) = Ok (Hash r) /\
  exists b, Marshal (witness w) = Ok b /\ WitnessProto r = EncodeToString b.

End MoreVocabulary.

(** * Properties *)

(** ** Traces *)

Section TraceFacts.

Context {Method ExtState Payload : Type}.
Context `{!Externals Method ExtState Payload}.

Lemma handed_app (t1 t2 : list (Event Method)) :
  handed (t1 ++ t2) = handed t1 ++ handed t2.
Proof. apply omap_app. Qed.

Lemma submissions_app (t1 t2 : list (Event Method)) :
  submissions (t1 ++ t2) = submissions t1 ++ submissions t2.
Proof. apply omap_app. Qed.

Lemma handed_cons_queue (w : witnessWithInfo Method) (tr : list (Event Method)) :
  handed (EvQueueUpload w :: tr) = w :: handed tr.
Proof. reflexivity. Qed.

Lemma handed_transformEvents (calls : list (string * Method)) :
  handed (transformEvents calls) = [].
Proof. induction calls as [|c calls IH]; simpl; auto. Qed.

Lemma submissions_transformEvents (calls : list (string * Method)) :
  submissions (transformEvents calls) = [].
Proof. induction calls as [|c calls IH]; simpl; auto. Qed.

(** ** The transform chain *)

(** Every run of the chain has an outcome. *)
Lemma chainRun_total (ps : list (AkitaPlugin Method ExtState)) x m :
  exists calls x' m' r, chainRun ps x m calls x' m' r.
Proof.
  revert x m. induction ps as [|p ps IH]; intros x m.
  - exists [], x, m, None. constructor.
  - destruct (Transform p x m) as [[x1 m1] [e|]] eqn:Hp.
    + exists [(Name p, m)], x1, m1, (Some (Name p, e)). by constructor.
    + destruct (IH x1 m1) as (calls & x2 & m2 & r & Hrun).
      exists ((Name p, m) :: calls), x2, m2, r. by econstructor.
Qed.

(** The calls of a run follow the registration order; a run that is not
    vetoed has called every plugin. *)
Lemma chainRun_calls (ps : list (AkitaPlugin Method ExtState)) x m calls x' m' r :
  chainRun ps x m calls x' m' r ->
  calls.*1 `prefix_of` (Name <$> ps) /\
  (r = None -> calls.*1 = Name <$> ps).
Proof.
  induction 1 as [x m|p ps x m x' m' e Hp|p ps x m x' m' calls x'' m'' r Hp _ [IH1 IH2]];
    rewrite ?fmap_cons, ?fmap_nil.
  - split; [apply prefix_nil | done].
  - split; [|done]. apply prefix_cons, prefix_nil.
  - split; [by apply prefix_cons|]. intros Hr. simpl. by rewrite IH2.
Qed.

(** [runPlugins] computes the run of the chain. *)
Lemma runPlugins_chainRun ps m (wd : World Method ExtState) calls x' m' r :
  chainRun ps (ext wd) m calls x' m' r ->
  runPlugins ps m wd =
    match r with
    | Some (name, e) =>
      ({| ext := x';
          trace := trace wd ++ transformEvents calls ++
                   [EvPrint LError "plugin %q returned error, skipping: %v"
                            [name; e]] |},
       Err e)
    | None =>
      ({| ext := x'; trace := trace wd ++ transformEvents calls |}, Ok m')
    end.
Proof.
  remember (ext wd) as x eqn:Hx. intros Hrun. revert wd Hx.
  induction Hrun as [x m|p ps x m x' m' e Hp|p ps x m x' m' calls x'' m'' r Hp _ IH];
    intros wd ->; simpl.
  - destruct wd as [x tr]; simpl. by rewrite List.app_nil_r.
  - rewrite Hp. simpl. unfold emit, setExt; simpl. by rewrite <- !app_assoc.
  - rewrite Hp. rewrite (IH (setExt x' (emit (EvTransform (Name p) m) wd)) eq_refl).
    unfold emit, setExt; simpl. destruct r as [[name e]|]; by rewrite <- !app_assoc.
Qed.

End TraceFacts.

Section QueueUpload.

Context {Method ExtState Payload : Type}.
Context `{!Externals Method ExtState Payload}.

(** A vetoed run ends with the call of the vetoing plugin. *)
Lemma chainRun_veto_last (ps : list (AkitaPlugin Method ExtState))
    x m calls x' m' name e :
  chainRun ps x m calls x' m' (Some (name, e)) ->
  last (calls.*1) = Some name.
Proof.
  remember (Some (name, e)) as r eqn:Hr. intros Hrun. revert Hr.
  induction Hrun as [x m|p ps x m x' m' e' Hp|p ps x m x' m' calls x'' m'' r Hp Hrun IH];
    intros Hr; [done| |].
  - by injection Hr as -> _.
  - rewrite fmap_cons. specialize (IH Hr).
    destruct (calls.*1) as [|n ns] eqn:Hc; [done|]. exact IH.
Qed.

(** [queueUpload], given the run of the chain. *)
Lemma queueUpload_run (clk : Time) (w : witnessWithInfo Method)
    (c : BackendCollector Method ExtState) (wd : World Method ExtState)
    calls x' m' r :
  chainRun (plugins c) (ext wd) (GetMethod (witness w)) calls x' m' r ->
  queueUpload clk w c wd =
    match r with
    | Some (name, e) =>
      (c, {| ext := x';
             trace := trace wd ++ [EvQueueUpload w] ++ transformEvents calls ++
                      [EvPrint LError "plugin %q returned error, skipping: %v"
                               [name; e]] |})
    | None =>
      let wd2 := {| ext := (obfuscate x' m').1;
                    trace := trace wd ++ [EvQueueUpload w] ++
                             transformEvents calls ++ [EvObfuscate m'] |} in
      let added :=
        batcher.Add clk (setWitness w {| wMethod := (obfuscate x' m').2 |})
                    (uploadBatch c) wd2 in
      (setUploadBatch added.1 c, added.2)
    end.
Proof.
  intros Hrun.
  pose proof (runPlugins_chainRun (plugins c) (GetMethod (witness w))
                (emit (EvQueueUpload w) wd) calls x' m' r Hrun) as Hrp.
  unfold queueUpload. rewrite Hrp. clear Hrp.
  destruct r as [[name e]|]; simpl.
  - by rewrite <- !app_assoc.
  - destruct (obfuscate x' m') as [x'' m''] eqn:Hob. simpl.
    unfold emit, setExt; simpl. rewrite <- !app_assoc. simpl.
    by destruct (batcher.Add _ _ _ _) as [b wd3].
Qed.

(** C5.  [queueUpload] runs the transform chain of the collector on the
    method of the record it is handed: the plugins are called in
    registration order.  When a plugin returns an error the run stops
    there, the error is printed at error level with the name of that plugin,
    [obfuscate] is not called and the collector, its upload batch included,
    is returned unchanged, so that only this record is dropped.  When no
    plugin returns an error every plugin has been called, [obfuscate] is
    called after the last of them, on the method as the chain left it, and
    the redacted record is added to the upload batch. *)
Theorem queueUpload_transform_chain (clk : Time) (w : witnessWithInfo Method)
    (c : BackendCollector Method ExtState) (wd : World Method ExtState) :
  exists calls x' m' r,
    chainRun (plugins c) (ext wd) (GetMethod (witness w)) calls x' m' r /\
    calls.*1 `prefix_of` (Name <$> plugins c) /\
    match r with
    | Some (name, e) =>
      last (calls.*1) = Some name /\
      queueUpload clk w c wd =
        (c, {| ext := x';
               trace := trace wd ++ [EvQueueUpload w] ++ transformEvents calls ++
                        [EvPrint LError "plugin %q returned error, skipping: %v"
                                 [name; e]] |})
    | None =>
      calls.*1 = Name <$> plugins c /\
      let '(x'', m'') := obfuscate x' m' in
      let wd2 := {| ext := x'';
                    trace := trace wd ++ [EvQueueUpload w] ++
                             transformEvents calls ++ [EvObfuscate m'] |} in
      let '(b, wd3) :=
        batcher.Add clk (setWitness w {| wMethod := m'' |}) (uploadBatch c) wd2 in
      queueUpload clk w c wd = (setUploadBatch b c, wd3)
    end.
Proof.
  destruct (chainRun_total (plugins c) (ext wd) (GetMethod (witness w)))
    as (calls & x' & m' & r & Hrun).
  exists calls, x', m', r. split; [exact Hrun|].
  destruct (chainRun_calls _ _ _ _ _ _ _ Hrun) as [Hpre Hall].
  split; [exact Hpre|].
  rewrite (queueUpload_run clk w c wd calls x' m' r Hrun).
  destruct r as [[name e]|].
  - split; [by eapply chainRun_veto_last|done].
  - split; [by apply Hall|].
    destruct (obfuscate x' m') as [x'' m'']. simpl.
    by destruct (batcher.Add _ _ _ _) as [b wd3].
Qed.

End QueueUpload.

(** ** Uploading a batch *)

Section Upload.

Context {Method ExtState Payload : Type}.
Context `{!Externals Method ExtState Payload}.

Lemma convert_loop (d : NetworkDirection) (items : list (witnessWithInfo Method))
    (rs : list WitnessReport) (wd : World Method ExtState) :
  foldl (convertStep d) (rs, wd) items =
    (rs ++ okReports d items,
     {| ext := ext wd; trace := trace wd ++ conversionWarnings d items |}).
Proof.
  revert rs wd. induction items as [|w items IH]; intros rs wd; simpl.
  - unfold okReports, conversionWarnings. simpl. rewrite !List.app_nil_r.
    by destruct wd.
  - unfold convertStep at 2. unfold okReports, conversionWarnings. simpl.
    destruct (toReport w d) as [r|err]; simpl; rewrite IH; simpl.
    + by rewrite <- app_assoc.
    + by rewrite <- app_assoc.
Qed.

Lemma okReports_app d (l1 l2 : list (witnessWithInfo Method)) :
  okReports d (l1 ++ l2) = okReports d l1 ++ okReports d l2.
Proof. apply omap_app. Qed.

Lemma conversionWarnings_app d (l1 l2 : list (witnessWithInfo Method)) :
  conversionWarnings d (l1 ++ l2) =
  conversionWarnings d l1 ++ conversionWarnings d l2.
Proof. apply omap_app. Qed.

Lemma submissions_conversionWarnings d (items : list (witnessWithInfo Method)) :
  submissions (conversionWarnings d items) = [].
Proof.
  induction items as [|w items IH]; [done|].
  unfold conversionWarnings. simpl. by destruct (toReport w d).
Qed.

Lemma handed_conversionWarnings d (items : list (witnessWithInfo Method)) :
  handed (conversionWarnings d items) = [].
Proof.
  induction items as [|w items IH]; [done|].
  unfold conversionWarnings. simpl. by destruct (toReport w d).
Qed.

(** The hash of a report is the hash of the witness alone: two records with
    the same witness get the same hash, whatever their addressing. *)
Lemma toReport_Hash (r1 r2 : witnessWithInfo Method) d1 d2 rep1 rep2 :
  toReport r1 d1 = Ok rep1 -> toReport r2 d2 = Ok rep2 ->
  witness r1 = witness r2 -> Hash rep1 = Hash rep2.
Proof.
  unfold toReport. intros H1 H2 Hw. rewrite Hw in H1.
  destruct (HashProto (witness r2)) as [h|e]; [|done].
  destruct (Marshal (witness r2)) as [b|e]; [|done].
  injection H1 as <-. by injection H2 as <-.
Qed.

(** The world [uploadWitnesses] leaves. *)
Lemma uploadWitnesses_world d lc lrn (items : list (witnessWithInfo Method))
    (wd : World Method ExtState) :
  uploadWitnesses d lc lrn items wd =
    {| ext := (ReportWitnesses lc (ext wd) lrn (okReports d items)).1;
       trace :=
         trace wd ++ conversionWarnings d items ++
         [EvReportWitnesses (30 * time.Second) lrn (okReports d items)] ++
         match (ReportWitnesses lc (ext wd) lrn (okReports d items)).2 with
         | Some e => [EvPrint LWarning "Failed to upload witnesses: %v\n" [e]]
         | None => []
         end |}.
Proof.
  unfold uploadWitnesses. rewrite convert_loop. simpl.
  destruct (ReportWitnesses lc (ext wd) lrn (okReports d items)) as [x [e|]];
    unfold emit, setExt; simpl; rewrite <- ?app_assoc; simpl; done.
Qed.

(** C4.  [uploadWitnesses] on a batch: every item that fails to hash or to
    marshal is logged with one warning and left out, the reports of all
    other items are submitted, in order, in a single call whose context has
    a timeout of 30 seconds; when that call fails one warning is logged and
    nothing else happens: the submission is not repeated and the batch is
    not kept (the batcher's queue is empty after the flush whatever the
    outcome). *)
Theorem uploadWitnesses_failures d lc lrn (items : list (witnessWithInfo Method))
    (wd : World Method ExtState) :
  let reports := okReports d items in
  let outcome := ReportWitnesses lc (ext wd) lrn reports in
  uploadWitnesses d lc lrn items wd =
    {| ext := outcome.1;
       trace :=
         trace wd ++ conversionWarnings d items ++
         [EvReportWitnesses (30 * time.Second) lrn reports] ++
         match outcome.2 with
         | Some e => [EvPrint LWarning "Failed to upload witnesses: %v\n" [e]]
         | None => []
         end |} /\
  submissions (trace (uploadWitnesses d lc lrn items wd)) =
    submissions (trace wd) ++ [(30 * time.Second, lrn, reports)] /\
  (forall l1 bad l2 err,
      items = l1 ++ bad :: l2 -> toReport bad d = Err err ->
      reports = okReports d l1 ++ okReports d l2 /\
      conversionWarnings d items =
        conversionWarnings d l1 ++
        EvPrint LWarning "Failed to convert witness to report: %v\n" [err] ::
        conversionWarnings d l2) /\
  (forall b : batcher.InMemory (witnessWithInfo Method) (World Method ExtState),
      batcher.processBatch b = uploadWitnesses d lc lrn ->
      batcher.queue b <> [] ->
      map snd (batcher.queue b) = items ->
      batcher.flush b wd =
        (batcher.setQueue [] b, uploadWitnesses d lc lrn items wd)).
Proof.
  intros reports outcome. split; [apply uploadWitnesses_world|]. split; [|split].
  - rewrite uploadWitnesses_world. simpl.
    rewrite !submissions_app, submissions_conversionWarnings. simpl.
    fold reports. fold outcome. by destruct (outcome.2).
  - intros l1 bad l2 err -> Hbad. subst reports.
    rewrite okReports_app, conversionWarnings_app. unfold okReports at 3.
    unfold conversionWarnings at 3. simpl. by rewrite Hbad.
  - intros b Hpb Hne <-. unfold batcher.flush.
    destruct (batcher.queue b) as [|i q]; [done|]. by rewrite Hpb.
Qed.

End Upload.

(** ** The collector: what every operation preserves *)

Section Frame.

Context {Method ExtState Payload : Type}.
Context `{!Externals Method ExtState Payload}.

Implicit Types (c : BackendCollector Method ExtState)
               (wd : World Method ExtState)
               (w : witnessWithInfo Method).

Lemma batchWired_config c c' : config c' = config c -> batchWired c -> batchWired c'.
Proof.
  unfold config, batchWired. intros Hc (Hp & Hn & Hd).
  injection Hc; intros. repeat split; congruence.
Qed.

Lemma uploadWitnesses_handed d lc lrn (items : list (witnessWithInfo Method)) wd :
  handed (trace (uploadWitnesses d lc lrn items wd)) = handed (trace wd).
Proof.
  rewrite uploadWitnesses_world. simpl.
  rewrite !handed_app, handed_conversionWarnings. simpl.
  destruct (ReportWitnesses _ _ _ _).2; simpl; by rewrite List.app_nil_r.
Qed.

(** The batcher never touches anything but its queue, and what it does to
    the world it does through its callback. *)
Lemma batcher_flush_frame {A W} (b : batcher.InMemory A W) (x : W) :
  batcher.processBatch (batcher.flush b x).1 = batcher.processBatch b /\
  batcher.maxSize (batcher.flush b x).1 = batcher.maxSize b /\
  batcher.flushDuration (batcher.flush b x).1 = batcher.flushDuration b /\
  batcher.queue (batcher.flush b x).1 = [] /\
  ((batcher.flush b x).2 = x \/
   exists items, (batcher.flush b x).2 = batcher.processBatch b items x).
Proof.
  unfold batcher.flush. destruct (batcher.queue b) as [|i q] eqn:Hq; simpl.
  - repeat split; auto.
  - repeat split; eauto.
Qed.

Lemma batcher_Add_frame {A W} now (a : A) (b : batcher.InMemory A W) (x : W) :
  batcher.processBatch (batcher.Add now a b x).1 = batcher.processBatch b /\
  batcher.maxSize (batcher.Add now a b x).1 = batcher.maxSize b /\
  batcher.flushDuration (batcher.Add now a b x).1 = batcher.flushDuration b /\
  ((batcher.Add now a b x).2 = x \/
   exists items, (batcher.Add now a b x).2 = batcher.processBatch b items x).
Proof.
  unfold batcher.Add. destruct (_ <=? _); simpl.
  - destruct (batcher_flush_frame
                (batcher.setQueue (batcher.queue b ++ [(now, a)]) b) x)
      as (H1 & H2 & H3 & _ & H5). repeat split; auto.
  - repeat split; auto.
Qed.

Lemma batcher_timeTrigger_frame {A W} now (b : batcher.InMemory A W) (x : W) :
  batcher.processBatch (batcher.timeTrigger now b x).1 = batcher.processBatch b /\
  batcher.maxSize (batcher.timeTrigger now b x).1 = batcher.maxSize b /\
  batcher.flushDuration (batcher.timeTrigger now b x).1 = batcher.flushDuration b /\
  ((batcher.timeTrigger now b x).2 = x \/
   exists items, (batcher.timeTrigger now b x).2 = batcher.processBatch b items x).
Proof.
  unfold batcher.timeTrigger. destruct (batcher.queue b) as [|[t0 i] q] eqn:Hq.
  - repeat split; auto.
  - destruct (_ <? _).
    + destruct (batcher_flush_frame b x) as (H1 & H2 & H3 & _ & H5).
      repeat split; auto.
    + repeat split; auto.
Qed.

(** [queueUpload] leaves the pair cache and the time of the last call
    alone and keeps the configuration. *)
Lemma queueUpload_state clk w c wd :
  pairCache (queueUpload clk w c wd).1 = pairCache c /\
  lastProcessTime (queueUpload clk w c wd).1 = lastProcessTime c /\
  config (queueUpload clk w c wd).1 = config c.
Proof.
  destruct (chainRun_total (plugins c) (ext wd) (GetMethod (witness w)))
    as (calls & x' & m' & r & Hrun).
  rewrite (queueUpload_run clk w c wd calls x' m' r Hrun).
  destruct r as [[name e]|]; [done|]. cbv zeta.
  match goal with |- context [batcher.Add ?n ?a ?b0 ?x0] =>
    destruct (batcher_Add_frame n a b0 x0) as (H1 & H2 & H3 & _);
    destruct (batcher.Add n a b0 x0) as [b wd3] end.
  simpl in *. by unfold config; simpl; rewrite H1, H2, H3.
Qed.

(** [queueUpload] records its argument, once. *)
Lemma queueUpload_handed clk w c wd :
  batchWired c ->
  handed (trace (queueUpload clk w c wd).2) = handed (trace wd) ++ [w].
Proof.
  intros (Hp & _).
  destruct (chainRun_total (plugins c) (ext wd) (GetMethod (witness w)))
    as (calls & x' & m' & r & Hrun).
  rewrite (queueUpload_run clk w c wd calls x' m' r Hrun).
  destruct r as [[name e]|].
  - simpl.
    by rewrite handed_app, handed_cons_queue, handed_app, handed_transformEvents.
  - cbv zeta.
    match goal with |- context [batcher.Add ?n ?a ?b0 ?x0] =>
      destruct (batcher_Add_frame n a b0 x0) as (_ & _ & _ & H4);
      destruct (batcher.Add n a b0 x0) as [b wd3] end.
    simpl in *. destruct H4 as [-> | [items ->]];
      [|rewrite Hp, uploadWitnesses_handed];
      simpl;
      by rewrite handed_app, handed_cons_queue, handed_app, handed_transformEvents.
Qed.

End Frame.

(** ** Sweeping the pair cache *)

Section Sweep.

Context {Method ExtState Payload : Type}.
Context `{!Externals Method ExtState Payload}.

Implicit Types (c : BackendCollector Method ExtState)
               (wd : World Method ExtState)
               (w : witnessWithInfo Method)
               (l : list (WitnessID * witnessWithInfo Method)).

Lemma flushStep_state clk cutoff c wd k w :
  let s := flushStep clk cutoff (c, wd) (k, w) in
  pairCache s.1 =
    (if decide (expired cutoff (k, w)) then delete k (pairCache c)
     else pairCache c) /\
  lastProcessTime s.1 = lastProcessTime c /\
  config s.1 = config c.
Proof.
  unfold flushStep. simpl.
  destruct (decide (expired cutoff (k, w))) as [He|He];
    unfold expired in He; simpl in He.
  - rewrite He.
    destruct (queueUpload_state clk w c wd) as (H2 & H3 & H4).
    destruct (queueUpload clk w c wd) as [c1 wd1]. simpl in *.
    by rewrite H2.
  - apply not_true_is_false in He. by rewrite He.
Qed.

Lemma flushStep_handed clk cutoff c wd k w :
  batchWired c ->
  handed (trace (flushStep clk cutoff (c, wd) (k, w)).2) =
    handed (trace wd) ++ (filter (expired cutoff) [(k, w)]).*2.
Proof.
  intros Hw. unfold flushStep. simpl.
  destruct (decide (expired cutoff (k, w))) as [He|He].
  - rewrite filter_cons_True by done. unfold expired in He. simpl in He.
    rewrite He. pose proof (queueUpload_handed clk w c wd Hw) as H1.
    by destruct (queueUpload clk w c wd) as [c1 wd1].
  - rewrite filter_cons_False by done. unfold expired in He. simpl in He.
    apply not_true_is_false in He. rewrite He. simpl.
    by rewrite List.app_nil_r.
Qed.

Lemma flush_loop_state clk cutoff l c wd :
  let s := foldl (flushStep clk cutoff) (c, wd) l in
  (forall k, pairCache s.1 !! k =
             if decide (k ∈ (filter (expired cutoff) l).*1) then None
             else pairCache c !! k) /\
  lastProcessTime s.1 = lastProcessTime c /\
  config s.1 = config c.
Proof.
  revert c wd. induction l as [|[k w] l IH]; intros c wd; simpl.
  - repeat split; auto.
  - destruct (flushStep_state clk cutoff c wd k w) as (H2 & H3 & H4).
    destruct (flushStep clk cutoff (c, wd) (k, w)) as [c1 wd1] eqn:Hs.
    simpl in H2, H3, H4.
    destruct (IH c1 wd1) as (I2 & I3 & I4).
    split; [|split; congruence].
    intros k'. rewrite I2, H2.
    destruct (decide (expired cutoff (k, w))) as [He|He].
    + rewrite filter_cons_True by done. rewrite fmap_cons. simpl.
      destruct (decide (k' = k)) as [->|Hne].
      * rewrite lookup_delete_eq.
        rewrite (decide_True (P := k ∈ k :: _)) by apply list_elem_of_here.
        by destruct (decide _).
      * rewrite lookup_delete_ne by done.
        destruct (decide (k' ∈ (filter (expired cutoff) l).*1)) as [Hin|Hin].
        -- by rewrite decide_True by by apply list_elem_of_further.
        -- rewrite decide_False; [done|].
           intros [?|?]%elem_of_cons; done.
    + by rewrite filter_cons_False by done.
Qed.

Lemma flush_loop_handed clk cutoff l c wd :
  batchWired c ->
  handed (trace (foldl (flushStep clk cutoff) (c, wd) l).2) =
    handed (trace wd) ++ (filter (expired cutoff) l).*2.
Proof.
  revert c wd. induction l as [|[k w] l IH]; intros c wd Hw; simpl.
  - by rewrite List.app_nil_r.
  - pose proof (flushStep_handed clk cutoff c wd k w Hw) as H1.
    destruct (flushStep_state clk cutoff c wd k w) as (_ & _ & H4).
    destruct (flushStep clk cutoff (c, wd) (k, w)) as [c1 wd1] eqn:Hs.
    simpl in H1, H4.
    rewrite (IH c1 wd1 (batchWired_config _ _ H4 Hw)), H1.
    rewrite <- app_assoc. f_equal. rewrite <- fmap_app. f_equal.
    change ((k, w) :: l) with ([(k, w)] ++ l). by rewrite filter_app.
Qed.

(** Membership in the victims of a sweep. *)
Lemma elem_of_victims cutoff c k w :
  (k, w) ∈ victims cutoff c <->
  pairCache c !! k = Some w /\ time.Before (observationTime w) cutoff = true.
Proof.
  unfold victims. rewrite list_elem_of_filter, (rangeOrder_perm (pairCache c)).
  rewrite elem_of_map_to_list. unfold expired. simpl. tauto.
Qed.

Lemma victims_perm cutoff c :
  victims cutoff c ≡ₚ filter (expired cutoff) (map_to_list (pairCache c)).
Proof. unfold victims. by rewrite (rangeOrder_perm (pairCache c)). Qed.

Lemma victims_NoDup cutoff c : NoDup (victims cutoff c).*1.
Proof.
  rewrite victims_perm. 
  apply NoDup_fmap_fst.
  - intros k w1 w2 [_ H1%elem_of_map_to_list]%list_elem_of_filter
                   [_ H2%elem_of_map_to_list]%list_elem_of_filter. congruence.
  - apply NoDup_filter, NoDup_map_to_list.
Qed.

(** What a sweep does to the collector: the victims leave the cache, the
    other entries stay. *)
Lemma flushPairCache_state clk cutoff c wd :
  let s := flushPairCache clk cutoff c wd in
  pairCache s.1 = filter (fun ke => ~ expired cutoff ke) (pairCache c) /\
  lastProcessTime s.1 = lastProcessTime c /\
  config s.1 = config c.
Proof.
  unfold flushPairCache.
  destruct (flush_loop_state clk cutoff (rangeOrder (pairCache c)) c wd)
    as (H2 & H3 & H4).
  split; [|by split].
  apply map_eq. intros k. rewrite H2. fold (victims cutoff c).
  destruct (decide (k ∈ (victims cutoff c).*1)) as [Hin|Hin].
  - symmetry. apply map_lookup_filter_None. right. intros w Hk Hne.
    apply list_elem_of_fmap in Hin as ([k' w'] & -> & Hv).
    apply elem_of_victims in Hv as [Hk' Hb]. simpl in *.
    rewrite Hk in Hk'. injection Hk' as ->. by apply Hne.
  - destruct (pairCache c !! k) as [w|] eqn:Hk.
    + symmetry. apply map_lookup_filter_Some. split; [done|].
      intros He. apply Hin. apply list_elem_of_fmap. exists (k, w).
      split; [done|]. by apply elem_of_victims.
    + symmetry. apply map_lookup_filter_None. left. done.
Qed.

(** What a sweep hands to [queueUpload]: the victims, each once and as
    cached. *)
Lemma flushPairCache_handed clk cutoff c wd :
  batchWired c ->
  handed (trace (flushPairCache clk cutoff c wd).2) =
    handed (trace wd) ++ (victims cutoff c).*2.
Proof. intros Hw. by apply flush_loop_handed. Qed.

End Sweep.

(** ** [Process], [Close] and the timer of the batcher *)

Section Operations.

Context {Method ExtState Payload : Type}.
Context `{!Externals Method ExtState Payload}.

Implicit Types (c : BackendCollector Method ExtState)
               (wd : World Method ExtState)
               (w : witnessWithInfo Method)
               (t : ParsedNetworkTraffic Payload).

Lemma flushPairCache_emitsOnce clk cutoff c wd :
  batchWired c ->
  emitsOnce cutoff c wd (flushPairCache clk cutoff c wd).
Proof.
  intros Hw. destruct (flushPairCache_state clk cutoff c wd) as (Hc & _ & _).
  exists (victims cutoff c). split; [by apply flushPairCache_handed|].
  split; [apply victims_NoDup|].
  assert (Hlt : forall e : witnessWithInfo Method,
             expired cutoff (0%N, e) <-> observationTime e < cutoff).
  { intros e. unfold expired, time.Before. simpl. apply Z.ltb_lt. }
  split; [|split; [|split; [|split]]].
  - intros k e. rewrite elem_of_victims. unfold time.Before.
    by rewrite Z.ltb_lt.
  - intros k e Hk Hlt'. rewrite Hc. apply map_lookup_filter_None. right.
    intros e' Hk' Hne. apply Hne. unfold expired, time.Before. simpl.
    apply Z.ltb_lt. congruence.
  - intros k e Hk Hge. rewrite Hc. apply map_lookup_filter_Some.
    split; [done|]. unfold expired, time.Before. simpl.
    rewrite Z.ltb_lt. lia.
  - intros k Hk. rewrite Hc. apply map_lookup_filter_None. by left.
  - intros cutoff' k Hin Hin'.
    apply list_elem_of_fmap in Hin as ([k1 e1] & -> & Hv).
    apply list_elem_of_fmap in Hin' as ([k2 e2] & Heq & Hv').
    simpl in Heq. subst k2.
    apply elem_of_victims in Hv as [Hk1 Hb1].
    apply elem_of_victims in Hv' as [Hk2 _].
    rewrite Hc in Hk2. apply map_lookup_filter_Some in Hk2 as [Hk2 Hne].
    apply Hne. unfold expired. simpl. congruence.
Qed.

Lemma setLastProcessTime_config now c :
  config (setLastProcessTime now c) = config c.
Proof. reflexivity. Qed.

Lemma batcher_Close_handed c wd :
  batchWired c ->
  handed (trace (batcher.Close (uploadBatch c) wd).2) = handed (trace wd).
Proof.
  intros (Hp & _). unfold batcher.Close.
  destruct (batcher_flush_frame (uploadBatch c) wd) as (_ & _ & _ & _ & H).
  destruct H as [-> | [items ->]]; [done|].
  by rewrite Hp, uploadWitnesses_handed.
Qed.

(** The body of [Process], by cases. *)
Lemma Process_body_eq now t c wd :
  Process_body now t c wd =
    if isRequest t || isResponse t then
      match ParseHTTP (Content t) with
      | Err err =>
        (c, emit (EvPrint LDebug "Failed to parse HTTP, skipping: %v\n" [err]) wd)
      | Ok p =>
        match pairCache c !! PairKey p with
        | Some e =>
          queueUpload now (pairedRecord (isRequest t) e p)
                      (setPairCache (delete (PairKey p) (pairCache c)) c) wd
        | None =>
          (setPairCache (<[PairKey p := entryOf t p]> (pairCache c)) c, wd)
        end
      end
    else (c, wd).
Proof.
  unfold Process_body, isRequest, isResponse, pairedRecord.
  by destruct (Content t).
Qed.

(** The body of [Process] keeps the configuration and the time of the last
    call. *)
Lemma Process_body_config now t c wd :
  config (Process_body now t c wd).1 = config c /\
  lastProcessTime (Process_body now t c wd).1 = lastProcessTime c.
Proof.
  rewrite Process_body_eq. destruct (_ || _); [|done].
  destruct (ParseHTTP (Content t)) as [p|err]; [|done].
  destruct (pairCache c !! PairKey p) as [e|]; [|done].
  by destruct (queueUpload_state now (pairedRecord (isRequest t) e p)
                 (setPairCache (delete (PairKey p) (pairCache c)) c) wd)
    as (_ & -> & ->).
Qed.

Lemma Process_body_wired now t c wd :
  batchWired c -> batchWired (Process_body now t c wd).1.
Proof.
  intros Hw. eapply batchWired_config; [|exact Hw].
  apply Process_body_config.
Qed.

(** The deferred function of [Process], when a sweep is due and when not. *)
Lemma Process_deferred_sweep now c wd :
  sweepDue now c = true ->
  Process_deferred now c wd =
    (setLastProcessTime now
       (flushPairCache now (time.Add now (-1 * pairCacheExpiration)) c wd).1,
     (flushPairCache now (time.Add now (-1 * pairCacheExpiration)) c wd).2).
Proof.
  intros Hd. unfold Process_deferred. rewrite Hd. by destruct (flushPairCache _ _ _ _).
Qed.

Lemma Process_deferred_idle now c wd :
  sweepDue now c = false ->
  Process_deferred now c wd = (setLastProcessTime now c, wd).
Proof. intros Hd. unfold Process_deferred. by rewrite Hd. Qed.

Lemma Process_eq now t c wd :
  Process now t c wd =
    Process_deferred now (Process_body now t c wd).1 (Process_body now t c wd).2.
Proof. unfold Process. by destruct (Process_body now t c wd). Qed.

Lemma Close_eq now c wd :
  Close now c wd =
    (setUploadBatch
       (batcher.Close (uploadBatch (flushPairCache now now c wd).1)
                      (flushPairCache now now c wd).2).1
       (flushPairCache now now c wd).1,
     (batcher.Close (uploadBatch (flushPairCache now now c wd).1)
                    (flushPairCache now now c wd).2).2).
Proof.
  unfold Close. destruct (flushPairCache now now c wd) as [c1 wd1]. simpl.
  by destruct (batcher.Close (uploadBatch c1) wd1).
Qed.

Lemma emitsOnce_same_cache cutoff c wd c1 wd1 c2 wd2 :
  pairCache c2 = pairCache c1 ->
  handed (trace wd2) = handed (trace wd1) ->
  emitsOnce cutoff c wd (c1, wd1) -> emitsOnce cutoff c wd (c2, wd2).
Proof.
  intros Hc Hh (es & H1 & H2 & H3 & H4 & H5 & H6 & H7).
  exists es. simpl in *. rewrite Hh, Hc.
  do 6 (split; [done|]).
  intros cutoff' k Hin. specialize (H7 cutoff' k Hin).
  unfold victims in *. by rewrite Hc.
Qed.

Lemma sweepDue_body now t c wd :
  sweepDue now (Process_body now t c wd).1 = sweepDue now c.
Proof.
  unfold sweepDue. by destruct (Process_body_config now t c wd) as [_ ->].
Qed.

Lemma rangeOrder_empty :
  rangeOrder (∅ : gmap WitnessID (witnessWithInfo Method)) = [].
Proof.
  apply Permutation_nil_r. rewrite (rangeOrder_perm ∅). by rewrite map_to_list_empty.
Qed.

Lemma setUploadBatch_id c : setUploadBatch (uploadBatch c) c = c.
Proof. by destruct c. Qed.

Lemma batchTimer_frame now c wd :
  pairCache (batchTimer now c wd).1 = pairCache c /\
  lastProcessTime (batchTimer now c wd).1 = lastProcessTime c /\
  config (batchTimer now c wd).1 = config c /\
  (batchWired c ->
   handed (trace (batchTimer now c wd).2) = handed (trace wd)).
Proof.
  unfold batchTimer.
  destruct (batcher_timeTrigger_frame now (uploadBatch c) wd) as (H1 & H2 & H3 & H4).
  destruct (batcher.timeTrigger now (uploadBatch c) wd) as [b wd1]. simpl in *.
  do 2 (split; [done|]). split; [by unfold config; simpl; rewrite H1, H2, H3|].
  intros (Hp & _). destruct H4 as [-> | [items ->]]; [done|].
  by rewrite Hp, uploadWitnesses_handed.
Qed.

Lemma idle_frame ticks c wd :
  pairCache (idle ticks c wd).1 = pairCache c /\
  lastProcessTime (idle ticks c wd).1 = lastProcessTime c /\
  config (idle ticks c wd).1 = config c /\
  (batchWired c -> handed (trace (idle ticks c wd).2) = handed (trace wd)).
Proof.
  unfold idle. revert c wd. induction ticks as [|now ticks IH]; intros c wd; simpl.
  - done.
  - destruct (batchTimer_frame now c wd) as (H1 & H2 & H3 & H4).
    destruct (batchTimer now c wd) as [c1 wd1]. simpl in *.
    destruct (IH c1 wd1) as (I1 & I2 & I3 & I4).
    repeat split; try congruence.
    intros Hw. rewrite I4, H4; [done..|]. by eapply batchWired_config.
Qed.

Lemma sweepDue_false now c :
  time.IsZero (lastProcessTime c) = true \/
  time.Sub now (lastProcessTime c) <= pairCacheCleanupInterval ->
  sweepDue now c = false.
Proof.
  unfold sweepDue. intros [-> | Hle]; [done|].
  apply andb_false_iff. right. apply Z.ltb_ge. exact Hle.
Qed.

Lemma cacheWF_victims cutoff c k e :
  cacheWF c -> (k, e) ∈ victims cutoff c -> id e = k.
Proof. intros Hwf [Hk _]%elem_of_victims. by apply (Hwf k e). Qed.

(** The deferred function of [Process]: what it hands over comes from the
    cache and was due; what was not due stays. *)
Lemma Process_deferred_spec now c wd :
  batchWired c -> cacheWF c ->
  let s := Process_deferred now c wd in
  let cutoff := time.Add now (-1 * pairCacheExpiration) in
  (exists hs,
     handed (trace s.2) = handed (trace wd) ++ hs /\
     forall w, w ∈ hs ->
       pairCache c !! id w = Some w /\
       sweepDue now c && time.Before (observationTime w) cutoff = true) /\
  (forall k e, pairCache c !! k = Some e ->
     sweepDue now c && time.Before (observationTime e) cutoff = false ->
     pairCache s.1 !! k = Some e) /\
  (forall k, pairCache c !! k = None -> pairCache s.1 !! k = None) /\
  config s.1 = config c /\
  cacheWF s.1.
Proof.
  intros Hw Hwf s cutoff. subst s.
  destruct (sweepDue now c) eqn:Hd.
  - rewrite Process_deferred_sweep by done. fold cutoff.
    change (pairCache (setLastProcessTime now ?x, ?y).1) with (pairCache x).
    change (config (setLastProcessTime now ?x, ?y).1) with (config x).
    change (cacheWF (setLastProcessTime now ?x, ?y).1)
      with (map_Forall (fun k e => id e = k) (pairCache x)).
    cbn [snd].
    destruct (flushPairCache_state now cutoff c wd) as (Hc & _ & Hcfg).
    split; [|split; [|split; [|split]]].
    + exists (victims cutoff c).*2. split; [by apply flushPairCache_handed|].
      intros w ([k e] & -> & Hv)%list_elem_of_fmap. simpl.
      rewrite (cacheWF_victims _ _ _ _ Hwf Hv).
      by apply elem_of_victims in Hv.
    + intros k e Hk Hb. simpl in Hb. rewrite Hc. apply map_lookup_filter_Some.
      split; [done|]. unfold expired. simpl. by rewrite Hb.
    + intros k Hk. rewrite Hc. apply map_lookup_filter_None. by left.
    + done.
    + rewrite Hc. intros k e [Hk _]%map_lookup_filter_Some.
      by apply (Hwf k e).
  - rewrite Process_deferred_idle by done. simpl.
    split; [|done]. exists []. rewrite List.app_nil_r. split; [done|].
    intros w Hin. by apply elem_of_nil in Hin.
Qed.

Lemma filter_id_none (k : WitnessID) (hs : list (witnessWithInfo Method)) :
  (forall w, w ∈ hs -> id w <> k) -> filter (fun w => id w = k) hs = [].
Proof.
  induction hs as [|w hs IH]; intros H; [done|].
  rewrite filter_cons_False by (apply H; left).
  apply IH. intros w' Hin. apply H. by right.
Qed.

(** A property of the cached records that holds of the entry [Process]
    files for a frame is kept by the body of [Process], by its deferred
    function and by [Close]: they add no other record and change none. *)
Lemma Process_body_Forall (P : WitnessID -> witnessWithInfo Method -> Prop)
    now t c wd :
  (forall p, ParseHTTP (Content t) = Ok p -> P (PairKey p) (entryOf t p)) ->
  map_Forall P (pairCache c) ->
  map_Forall P (pairCache (Process_body now t c wd).1).
Proof.
  intros Hnew HP. rewrite Process_body_eq. destruct (_ || _); [|done].
  destruct (ParseHTTP (Content t)) as [p|err]; [|done].
  destruct (pairCache c !! PairKey p) as [e|].
  - destruct (queueUpload_state now (pairedRecord (isRequest t) e p)
                (setPairCache (delete (PairKey p) (pairCache c)) c) wd)
      as (-> & _ & _).
    simpl. by apply map_Forall_delete.
  - simpl. apply map_Forall_insert_2; [by apply Hnew|done].
Qed.

Lemma flushPairCache_Forall (P : WitnessID -> witnessWithInfo Method -> Prop)
    clk cutoff c wd :
  map_Forall P (pairCache c) ->
  map_Forall P (pairCache (flushPairCache clk cutoff c wd).1).
Proof.
  intros HP. destruct (flushPairCache_state clk cutoff c wd) as (-> & _ & _).
  intros k e [Hk _]%map_lookup_filter_Some. by apply (HP k e).
Qed.

Lemma Process_Forall (P : WitnessID -> witnessWithInfo Method -> Prop)
    now t c wd :
  (forall p, ParseHTTP (Content t) = Ok p -> P (PairKey p) (entryOf t p)) ->
  map_Forall P (pairCache c) ->
  map_Forall P (pairCache (Process now t c wd).1).
Proof.
  intros Hnew HP. rewrite Process_eq. unfold Process_deferred.
  pose proof (Process_body_Forall P now t c wd Hnew HP) as HP1.
  destruct (sweepDue now _); [|done].
  pose proof (flushPairCache_Forall P now
                (time.Add now (-1 * pairCacheExpiration)) _
                (Process_body now t c wd).2 HP1) as HP2.
  by destruct (flushPairCache _ _ _ _).
Qed.

Lemma Close_Forall (P : WitnessID -> witnessWithInfo Method -> Prop)
    now c wd :
  map_Forall P (pairCache c) -> map_Forall P (pairCache (Close now c wd).1).
Proof. intros HP. rewrite Close_eq. simpl. by apply flushPairCache_Forall. Qed.

(** The body of [Process] files records under their own identifier. *)
Lemma Process_body_cacheWF now t c wd :
  cacheWF c -> cacheWF (Process_body now t c wd).1.
Proof. by apply Process_body_Forall. Qed.

Lemma Process_body_oneSided now t c wd :
  oneSided (Payload := Payload) c ->
  oneSided (Payload := Payload) (Process_body now t c wd).1.
Proof. apply Process_body_Forall. intros p Hp. by exists t, p. Qed.

(** In a collector in use every cached record holds one side only. *)
Lemma reachable_oneSided c :
  reachable (Payload := Payload) c -> oneSided (Payload := Payload) c.
Proof.
  induction 1 as [svc lrn lc d ps|now t c wd _ IH|now c wd _ IH|now c wd _ IH].
  - apply map_Forall_empty.
  - apply Process_Forall; [|exact IH]. intros p Hp. by exists t, p.
  - by apply Close_Forall.
  - unfold oneSided. by destruct (batchTimer_frame now c wd) as (-> & _).
Qed.

(** Every collector in use flushes through its own [uploadWitnesses], with
    the limits of [NewBackendCollector], and files every cached record under
    the identifier of the record. *)
Lemma reachable_invariants c :
  reachable (Payload := Payload) c -> batchWired c /\ cacheWF c.
Proof.
  induction 1 as [svc lrn lc d ps|now t c wd _ [Hw Hwf]|now c wd _ [Hw Hwf]
                 |now c wd _ [Hw Hwf]].
  - split; [done|]. apply map_Forall_empty.
  - rewrite Process_eq.
    destruct (Process_deferred_spec now (Process_body now t c wd).1
                (Process_body now t c wd).2 (Process_body_wired now t c wd Hw)
                (Process_body_cacheWF now t c wd Hwf))
      as (_ & _ & _ & Hcfg & Hwf').
    split; [|exact Hwf'].
    eapply batchWired_config; [exact Hcfg|]. by apply Process_body_wired.
  - rewrite Close_eq.
    destruct (flushPairCache_state now now c wd) as (Hc & _ & Hcfg).
    destruct (batcher_flush_frame (uploadBatch (flushPairCache now now c wd).1)
                (flushPairCache now now c wd).2) as (H1 & H2 & H3 & _).
    split.
    + eapply batchWired_config; [|exact Hw]. rewrite <- Hcfg.
      unfold config, batcher.Close. simpl. by rewrite H1, H2, H3.
    + unfold cacheWF. simpl. rewrite Hc.
      intros k e [Hk _]%map_lookup_filter_Some. by apply (Hwf k e).
  - destruct (batchTimer_frame now c wd) as (Hc & _ & Hcfg & _).
    split; [by eapply batchWired_config|]. unfold cacheWF. by rewrite Hc.
Qed.

Lemma Process_sweep_emitsOnce now t c wd :
  batchWired c -> sweepDue now c = true ->
  emitsOnce (time.Add now (-1 * pairCacheExpiration))
            (Process_body now t c wd).1 (Process_body now t c wd).2
            (Process now t c wd).
Proof.
  intros Hw Hd. rewrite Process_eq.
  rewrite Process_deferred_sweep by by rewrite sweepDue_body.
  eapply emitsOnce_same_cache; [..|apply (flushPairCache_emitsOnce now)].
  - reflexivity.
  - reflexivity.
  - by apply Process_body_wired.
Qed.

Lemma Close_emitsOnce now c wd :
  batchWired c -> emitsOnce now c wd (Close now c wd).
Proof.
  intros Hw. rewrite Close_eq.
  pose proof (flushPairCache_emitsOnce now now c wd Hw) as He.
  destruct (flushPairCache_state now now c wd) as (_ & _ & Hc).
  pose proof (batchWired_config _ _ Hc Hw) as Hw1.
  pose proof (batcher_Close_handed _ (flushPairCache now now c wd).2 Hw1) as Hh.
  destruct (flushPairCache now now c wd) as [c1 wd1]. simpl in *.
  eapply emitsOnce_same_cache; [..|exact He]; done.
Qed.

(** X18.  For a collector in use, a sweep triggered at the end of a
    [Process] call hands every entry that the cache holds at that point and
    that was observed before the cutoff (the time of the call minus one
    minute) to [queueUpload], once and as cached, that is with one side
    only, and removes it, so that no later sweep or [Close] hands it over
    again; entries observed at or after the cutoff have not expired and stay
    cached. *)
Theorem sweep_emits_once now t c wd :
  reachable (Payload := Payload) c ->
  sweepDue now c = true ->
  emitsOnce (time.Add now (-1 * pairCacheExpiration))
            (Process_body now t c wd).1 (Process_body now t c wd).2
            (Process now t c wd) /\
  oneSided (Payload := Payload) (Process_body now t c wd).1.
Proof.
  intros Hreach Hd.
  pose proof (reachable_oneSided c Hreach) as Hone.
  apply reachable_invariants in Hreach as [Hw _].
  split; [by apply Process_sweep_emitsOnce|by apply Process_body_oneSided].
Qed.

(** X19.  For a collector in use whose cached entries were all observed
    before the clock reading of [Close], [Close] hands every cached entry
    to [queueUpload], each once and as cached, in some order, and leaves
    the pair cache empty. *)
Theorem Close_emits_earlier_entries now c wd :
  reachable (Payload := Payload) c ->
  (forall k e, pairCache c !! k = Some e -> observationTime e < now) ->
  exists es : list (WitnessID * witnessWithInfo Method),
    handed (trace (Close now c wd).2) = handed (trace wd) ++ es.*2 /\
    es ≡ₚ map_to_list (pairCache c) /\
    pairCache (Close now c wd).1 = ∅.
Proof.
  intros [Hw _]%reachable_invariants Hold.
  destruct (Close_emitsOnce now c wd Hw)
    as (es & Hh & Hnd & Hin & Hgone & _ & Hnone & _).
  exists es. split; [exact Hh|]. split.
  - apply NoDup_Permutation.
    + by apply (NoDup_fmap_1 fst).
    + apply NoDup_map_to_list.
    + intros [k e]. rewrite elem_of_map_to_list, Hin.
      split; [by intros [? _]|]. intros Hk. split; [done|by eapply Hold].
  - apply map_empty. intros k.
    destruct (pairCache c !! k) as [e|] eqn:Hk; [|by apply Hnone].
    by apply (Hgone k e Hk), (Hold k e).
Qed.

(** C10.  The sweep of the pair cache is lazy.  A [Process] call made while
    [lastProcessTime] is zero, as it is after [NewBackendCollector], or made
    no more than 30 seconds after the previous one only runs the body of
    [Process] and sets [lastProcessTime]: every entry cached under another
    key than the one of the frame stays cached, however old it is, and the
    only record that can be handed to [queueUpload] is the pair this frame
    completes.  Between two calls nothing runs but the timer of the batcher,
    which neither changes the pair cache nor hands over an entry: an
    unmatched entry stays cached until a later [Process] call or [Close]. *)
Theorem sweep_is_lazy now t c wd :
  (time.IsZero (lastProcessTime c) = true \/
   time.Sub now (lastProcessTime c) <= pairCacheCleanupInterval ->
   Process now t c wd =
     (setLastProcessTime now (Process_body now t c wd).1,
      (Process_body now t c wd).2) /\
   (forall k e,
       pairCache c !! k = Some e ->
       (forall p, ParseHTTP (Content t) = Ok p -> PairKey p <> k) ->
       pairCache (Process now t c wd).1 !! k = Some e) /\
   (reachable (Payload := Payload) c ->
    exists hs,
      handed (trace (Process now t c wd).2) = handed (trace wd) ++ hs /\
      (hs = [] \/
       exists p e, ParseHTTP (Content t) = Ok p /\
                   pairCache c !! PairKey p = Some e /\
                   hs = [pairedRecord (isRequest t) e p]))) /\
  (forall ticks,
      pairCache (idle ticks c wd).1 = pairCache c /\
      (reachable (Payload := Payload) c ->
       handed (trace (idle ticks c wd).2) = handed (trace wd))) /\
  (forall svc lrn lc d ps,
      time.IsZero (lastProcessTime (NewBackendCollector svc lrn lc d ps)) = true).
Proof.
  split; [|split].
  - intros Hno.
    assert (Heq : Process now t c wd =
              (setLastProcessTime now (Process_body now t c wd).1,
               (Process_body now t c wd).2)).
    { rewrite Process_eq. apply Process_deferred_idle.
      rewrite sweepDue_body. by apply sweepDue_false. }
    split; [exact Heq|]. rewrite Heq. simpl. rewrite Process_body_eq.
    split.
    + intros k e Hk Hkey. destruct (_ || _); [|done].
      destruct (ParseHTTP (Content t)) as [p|err]; [|done].
      specialize (Hkey p eq_refl).
      destruct (pairCache c !! PairKey p) as [e'|] eqn:Hp.
      * destruct (queueUpload_state now (pairedRecord (isRequest t) e' p)
                    (setPairCache (delete (PairKey p) (pairCache c)) c) wd)
          as (-> & _ & _). simpl. by rewrite lookup_delete_ne.
      * simpl. by rewrite lookup_insert_ne.
    + intros [Hw _]%reachable_invariants.
      destruct (_ || _); [|by exists []; rewrite List.app_nil_r; auto].
      destruct (ParseHTTP (Content t)) as [p|err].
      * destruct (pairCache c !! PairKey p) as [e'|] eqn:Hp.
        -- exists [pairedRecord (isRequest t) e' p]. split.
           ++ by apply queueUpload_handed.
           ++ right. by exists p, e'.
        -- exists []. simpl. rewrite List.app_nil_r. auto.
      * exists []. simpl. rewrite handed_app. simpl. auto.
  - intros ticks. destruct (idle_frame ticks c wd) as (H1 & _ & _ & H4).
    split; [exact H1|]. by intros [Hw _]%reachable_invariants; apply H4.
  - done.
Qed.

(** ** Pairing *)

(** C1, amended.  Take a request frame and a response frame of one
    connection (when the response comes first, its destination address and
    port are the source address and port of the request; the source port of
    the request is a 16-bit number) whose partial witnesses share a pairing
    key, in either arrival order, and collectors in use.  The first frame
    arrives while the key is not cached and is filed; unless the sweep of
    that very call expires the entry, which takes a sweep that is due and a
    frame observed more than a minute before the call, the call hands no
    record with that key to [queueUpload] and the entry is cached after it.
    Whenever the second frame arrives while that entry is still cached, be
    it right after the first call or later, its call hands exactly one
    record with that key to [queueUpload]: the cached record with the
    witness of the second frame merged into it, source and destination
    swapped exactly when the second frame is the request, so that its source
    address and port are those of the request.  The key is no longer cached
    afterwards. *)
Theorem pairing_one_exchange now1 now2 (f1 f2 : ParsedNetworkTraffic Payload)
    p1 p2 c wd c' wd' :
  reachable (Payload := Payload) c ->
  reachable (Payload := Payload) c' ->
  (isRequest f1 && isResponse f2) || (isResponse f1 && isRequest f2) = true ->
  ParseHTTP (Content f1) = Ok p1 -> ParseHTTP (Content f2) = Ok p2 ->
  PairKey p2 = PairKey p1 ->
  pairCache c !! PairKey p1 = None ->
  pairCache c' !! PairKey p1 = Some (entryOf f1 p1) ->
  (isResponse f1 = true -> DstIP f1 = SrcIP f2 /\ DstPort f1 = SrcPort f2) ->
  0 <= SrcPort (if isRequest f1 then f1 else f2) < 2 ^ 16 ->
  let k := PairKey p1 in
  let req := if isRequest f1 then f1 else f2 in
  let s1 := Process now1 f1 c wd in
  let s2 := Process now2 f2 c' wd' in
  let ex := pairedRecord (isRequest f2) (entryOf f1 p1) p2 in
  (sweepDue now1 c &&
     time.Before (ObservationTime f1)
                 (time.Add now1 (-1 * pairCacheExpiration)) = false ->
   pairCache s1.1 !! k = Some (entryOf f1 p1) /\
   exists hs1,
     handed (trace s1.2) = handed (trace wd) ++ hs1 /\
     filter (fun w => id w = k) hs1 = []) /\
  (exists hs2,
     handed (trace s2.2) = handed (trace wd') ++ ex :: hs2 /\
     filter (fun w => id w = k) (ex :: hs2) = [ex]) /\
  id ex = k /\
  witness ex = MergeWitness (pwWitness p1) (pwWitness p2) /\
  srcIP ex = SrcIP req /\ srcPort ex = SrcPort req /\
  pairCache s2.1 !! k = None.
Proof.
  intros [Hw Hwf]%reachable_invariants [Hw' Hwf']%reachable_invariants
         Hkinds Hp1 Hp2 Hkey Hfresh Hcached Hconn Hport k req s1 s2 ex.
  assert (Horder :
    (isRequest f1 = true /\ isRequest f2 = false) \/
    (isRequest f1 = false /\ isRequest f2 = true /\ isResponse f1 = true)).
  { clear -Hkinds. unfold isRequest, isResponse in *.
    destruct (Content f1), (Content f2); simpl in *; auto; done. }
  assert (Hhttp1 : isRequest f1 || isResponse f1 = true).
  { destruct Horder as [[-> _]|(_ & _ & ->)]; [done|apply orb_true_r]. }
  assert (Hhttp2 : isRequest f2 || isResponse f2 = true).
  { clear -Hkinds. unfold isRequest, isResponse in *.
    destruct (Content f1), (Content f2); simpl in *; auto; done. }
  assert (Hid : id ex = k).
  { subst ex. unfold pairedRecord. by destruct (isRequest f2). }
  (* the first call *)
  set (c1 := setPairCache (<[k := entryOf f1 p1]> (pairCache c)) c).
  assert (Hb1 : Process_body now1 f1 c wd = (c1, wd)).
  { rewrite Process_body_eq, Hhttp1, Hp1. by rewrite Hfresh. }
  assert (Hw1 : batchWired c1) by done.
  assert (Hwf1 : cacheWF c1).
  { unfold cacheWF, c1. simpl. apply map_Forall_insert_2; [done|exact Hwf]. }
  destruct (Process_deferred_spec now1 c1 wd Hw1 Hwf1)
    as ((hs1 & Hh1 & Hfrom1) & Hstay1 & _).
  assert (Hs1 : s1 = Process_deferred now1 c1 wd).
  { subst s1. by rewrite Process_eq, Hb1. }
  (* the second call *)
  set (c2 := setPairCache (delete k (pairCache c')) c').
  assert (Hb2 : Process_body now2 f2 c' wd' = queueUpload now2 ex c2 wd').
  { rewrite Process_body_eq, Hhttp2, Hp2, Hkey. by rewrite Hcached. }
  assert (Hw2 : batchWired c2) by done.
  assert (Hwf2 : cacheWF c2).
  { unfold cacheWF, c2. simpl. by apply map_Forall_delete. }
  destruct (queueUpload_state now2 ex c2 wd') as (Hq1 & _ & Hq3).
  pose proof (queueUpload_handed now2 ex c2 wd' Hw2) as Hq4.
  assert (Hw2' : batchWired (queueUpload now2 ex c2 wd').1)
    by by eapply batchWired_config.
  assert (Hwf2' : cacheWF (queueUpload now2 ex c2 wd').1)
    by by unfold cacheWF; rewrite Hq1.
  destruct (Process_deferred_spec now2 _ (queueUpload now2 ex c2 wd').2
              Hw2' Hwf2')
    as ((hs2 & Hh2 & Hfrom2) & _ & Hgone2 & _ & _).
  assert (Hs2 : s2 = Process_deferred now2 (queueUpload now2 ex c2 wd').1
                                       (queueUpload now2 ex c2 wd').2).
  { subst s2. by rewrite Process_eq, Hb2. }
  split; [|split; [|split; [exact Hid|split; [|split; [|split]]]]].
  - intros Hkeep. split.
    + rewrite Hs1. apply Hstay1; [apply lookup_insert_eq|exact Hkeep].
    + exists hs1. split; [by rewrite Hs1|].
      apply filter_id_none. intros w Hin Hidw.
      destruct (Hfrom1 w Hin) as [Hc Hdue].
      rewrite Hidw in Hc. unfold c1 in Hc. simpl in Hc.
      rewrite lookup_insert_eq in Hc. injection Hc as <-.
      simpl in Hdue. unfold sweepDue in Hdue, Hkeep. simpl in Hdue.
      rewrite Hdue in Hkeep. done.
  - exists hs2. split.
    + rewrite Hs2, Hh2, Hq4. by rewrite <- app_assoc.
    + rewrite filter_cons_True by done. f_equal.
      apply filter_id_none. intros w Hin Hidw.
      destruct (Hfrom2 w Hin) as [Hc _].
      rewrite Hidw, Hq1 in Hc. unfold c2 in Hc. simpl in Hc.
      by rewrite lookup_delete_eq in Hc.
  - subst ex. unfold pairedRecord. by destruct (isRequest f2).
  - subst ex req. unfold pairedRecord.
    destruct Horder as [(-> & ->)|(-> & -> & RS)]; simpl; [done|].
    by apply Hconn.
  - subst ex req. unfold pairedRecord.
    destruct Horder as [(R1 & R2)|(R1 & R2 & RS)]; rewrite R1 in Hport;
      rewrite R1, R2; simpl.
    + unfold uint16. by apply Z.mod_small.
    + destruct (Hconn RS) as [_ ->]. unfold uint16. by apply Z.mod_small.
  - rewrite Hs2. apply Hgone2. rewrite Hq1. unfold c2. simpl.
    apply lookup_delete_eq.
Qed.

End Operations.

(** ** The batching shipper of the collector *)

Section Batching.

Context {Method ExtState Payload : Type}.
Context `{!Externals Method ExtState Payload}.

(** C3.  The batcher of a collector made by [NewBackendCollector] has the
    maximum size 10 and the flush duration 30 seconds.  [Add] appends the
    record to the queue; when that brings the queue to 10 records the whole
    queue is flushed at once through [uploadWitnesses], whatever the clock
    says, and otherwise nothing is flushed.  When the timer fires on a
    non-empty queue, the queue is flushed, whatever its length, if its
    oldest record has been queued for more than 30 seconds, and is left
    alone otherwise. *)
Theorem batch_flush_triggers svc lrn lc d ps
    (q : list (Time * witnessWithInfo Method)) now x
    (wd : World Method ExtState) :
  let b := batcher.setQueue q (uploadBatch (NewBackendCollector svc lrn lc d ps)) in
  batcher.maxSize b = 10 /\
  batcher.flushDuration b = 30 * time.Second /\
  (Z.of_nat (length q) + 1 < 10 ->
   batcher.Add now x b wd = (batcher.setQueue (q ++ [(now, x)]) b, wd)) /\
  (10 <= Z.of_nat (length q) + 1 ->
   batcher.Add now x b wd =
     (batcher.setQueue [] b, uploadWitnesses d lc lrn (map snd q ++ [x]) wd)) /\
  (forall t0 x0 q',
      q = (t0, x0) :: q' ->
      (30 * time.Second < time.Sub now t0 ->
       batcher.timeTrigger now b wd =
         (batcher.setQueue [] b, uploadWitnesses d lc lrn (map snd q) wd)) /\
      (time.Sub now t0 <= 30 * time.Second ->
       batcher.timeTrigger now b wd = (b, wd))).
Proof.
  intros b. split; [done|]. split; [done|]. split; [|split].
  - intros Hlt. unfold batcher.Add. simpl. rewrite length_app. simpl.
    unfold uploadBatchMaxSize.
    destruct (10 <=? Z.of_nat (length q + 1)) eqn:Hle; [|done].
    apply Z.leb_le in Hle. lia.
  - intros Hge. unfold batcher.Add. simpl. rewrite length_app. simpl.
    unfold uploadBatchMaxSize.
    destruct (10 <=? Z.of_nat (length q + 1)) eqn:Hle.
    + unfold batcher.flush. simpl. rewrite map_app. simpl.
      by destruct q.
    + apply Z.leb_gt in Hle. lia.
  - intros t0 x0 q' ->. unfold batcher.timeTrigger. simpl.
    unfold uploadBatchFlushDuration. split.
    + intros Hlt. apply Z.ltb_lt in Hlt. by rewrite Hlt.
    + intros Hle. apply Z.ltb_ge in Hle. by rewrite Hle.
Qed.

End Batching.

(** ** The HAR replay adapter *)

Section ReplayFacts.

Import apispec.

Context {Payload HarRequest HarResponse C : Type}.
Context `{!Collector Payload C} `{!FromHAR Payload HarRequest HarResponse}.

Implicit Types (entry : Entry HarRequest HarResponse)
               (entries : list (Entry HarRequest HarResponse))
               (st : LoopState C).

(** Adding a list of errors, one after the other. *)
Lemma add_errors (es : list error) (e0 : sampled_err.Errors) :
  let e1 := foldl (fun acc err => sampled_err.Add err acc) e0 es in
  sampled_err.SampleCount e1 = sampled_err.SampleCount e0 /\
  sampled_err.TotalCount e1 =
    sampled_err.TotalCount e0 + Z.of_nat (length es) /\
  (Z.of_nat (length (sampled_err.Samples e0)) <= sampled_err.SampleCount e0 ->
   sampled_err.Samples e1 =
     sampled_err.Samples e0 ++
     take (Z.to_nat (sampled_err.SampleCount e0) -
           length (sampled_err.Samples e0)) es).
Proof.
  revert e0. induction es as [|err es IH]; intros e0; simpl.
  - split; [done|]. split; [lia|]. intros _. by rewrite take_nil, List.app_nil_r.
  - destruct (IH (sampled_err.Add err e0)) as (I1 & I2 & I3).
    split; [by rewrite I1|]. split; [rewrite I2; simpl; lia|].
    intros Hle. rewrite I3; simpl.
    + destruct (Z.of_nat (length (sampled_err.Samples e0)) <?
                sampled_err.SampleCount e0) eqn:Hlt.
      * apply Z.ltb_lt in Hlt. rewrite length_app. simpl.
        rewrite <- app_assoc. simpl. f_equal.
        replace (Z.to_nat (sampled_err.SampleCount e0) -
                 length (sampled_err.Samples e0))%nat
          with (S (Z.to_nat (sampled_err.SampleCount e0) -
                   (length (sampled_err.Samples e0) + 1)))%nat by lia.
        done.
      * apply Z.ltb_ge in Hlt.
        replace (Z.to_nat (sampled_err.SampleCount e0) -
                 length (sampled_err.Samples e0))%nat with 0%nat by lia.
        done.
    + destruct (Z.of_nat (length (sampled_err.Samples e0)) <?
                sampled_err.SampleCount e0) eqn:Hlt; [|done].
      apply Z.ltb_lt in Hlt. rewrite length_app. simpl. lia.
Qed.

(** One iteration of the loop. *)
Lemma entryStep_spec harUUID i entry st :
  let st' := entryStep harUUID i entry st in
  successfulEntries st' =
    successfulEntries st + (if fullyOK entry then 1 else 0) /\
  errs st' =
    foldl (fun acc err => sampled_err.Add err acc) (errs st) (entryErrors entry) /\
  col st' =
    foldl (fun c0 f => CollectorProcess f c0) (col st)
          (entryFrames harUUID i entry).
Proof.
  unfold entryStep, requestSide, responseSide, fullyOK, requestOK, responseOK,
    entryErrors, entryFrames.
  destruct (Request entry) as [r|]; [destruct (convertRequest r) as [req|err]|];
    (destruct (Response entry) as [r'|];
       [destruct (convertResponse r') as [resp|err']|]); simpl;
    repeat split; lia.
Qed.

(** The loop. *)
Lemma entriesLoop_spec harUUID i entries st :
  let st' := entriesLoop harUUID i entries st in
  successfulEntries st' =
    successfulEntries st +
    Z.of_nat (length (filter (fun e => fullyOK e = true) entries)) /\
  errs st' =
    foldl (fun acc err => sampled_err.Add err acc) (errs st) (allErrors entries) /\
  col st' =
    foldl (fun c0 f => CollectorProcess f c0) (col st)
          (framesFrom harUUID i entries).
Proof.
  revert i st. induction entries as [|entry entries IH]; intros i st; simpl.
  - repeat split. lia.
  - destruct (entryStep_spec harUUID i entry st) as (H1 & H2 & H3).
    destruct (IH (i + 1) (entryStep harUUID i entry st)) as (I1 & I2 & I3).
    split; [|split].
    + rewrite I1, H1. destruct (fullyOK entry) eqn:Hok.
      * rewrite filter_cons_True by done. simpl length. lia.
      * rewrite filter_cons_False by (rewrite Hok; done). lia.
    + rewrite I2, H2. unfold allErrors. simpl. by rewrite foldl_app.
    + rewrite I3, H3. by rewrite foldl_app.
Qed.

(** When every request side is fine, the errors are those of the response
    sides, one for each entry whose response does not convert. *)
Lemma allErrors_responses entries :
  Forall (fun e => requestOK e = true) entries ->
  length (allErrors entries) =
    length (filter (fun e => responseOK e = false) entries) /\
  (length (filter (fun e => fullyOK e = true) entries) +
   length (filter (fun e => responseOK e = false) entries) = length entries)%nat.
Proof.
  induction 1 as [|entry entries Hreq _ [IH1 IH2]]; [done|].
  assert (He : length (entryErrors entry) =
               if responseOK entry then 0%nat else 1%nat).
  { unfold entryErrors, requestOK, responseOK in *.
    destruct (Request entry) as [r|]; [destruct (convertRequest r); [|done]|];
      (destruct (Response entry) as [r'|]; [destruct (convertResponse r')|]);
      done. }
  assert (Hf : fullyOK entry = responseOK entry).
  { unfold fullyOK. by rewrite Hreq. }
  unfold allErrors in *. cbn [map concat].
  rewrite length_app, IH1, He.
  destruct (responseOK entry) eqn:Hresp.
  - rewrite (filter_cons_True (fun e => fullyOK e = true)) by done.
    rewrite (filter_cons_False (fun e => responseOK e = false))
      by (rewrite Hresp; done).
    simpl. split; lia.
  - rewrite (filter_cons_False (fun e => fullyOK e = true))
      by (rewrite Hf; done).
    rewrite (filter_cons_True (fun e => responseOK e = false)) by done.
    simpl. split; lia.
Qed.

(** C6.  [parseFromHAR] goes through every entry of the archive: it feeds
    the collector each present side that converts, in order, whatever
    happened to earlier entries; it returns the number of entries all of
    whose present sides converted, the total number of conversion errors
    and, as a sample, the first three error messages.  For an archive of 10
    entries in which every request side is fine and exactly 3 response sides
    fail to convert this gives 7 successful entries, 3 sample messages and a
    total of 3. *)
Theorem parseFromHAR_counts harUUID (c : C)
    (log : CustomHARLog HarRequest HarResponse) :
  let r := parseFromHAR harUUID c log in
  successfulEntries r =
    Z.of_nat (length (filter (fun e => fullyOK e = true) (Entries log))) /\
  sampled_err.TotalCount (errs r) = Z.of_nat (length (allErrors (Entries log))) /\
  sampled_err.Samples (errs r) = take 3 (allErrors (Entries log)) /\
  (length (sampled_err.Samples (errs r)) <= 3)%nat /\
  col r = foldl (fun c0 f => CollectorProcess f c0) c
                (framesFrom harUUID 0 (Entries log)) /\
  (length (Entries log) = 10%nat ->
   Forall (fun e => requestOK e = true) (Entries log) ->
   length (filter (fun e => responseOK e = false) (Entries log)) = 3%nat ->
   successfulEntries r = 7 /\
   sampled_err.TotalCount (errs r) = 3 /\
   length (sampled_err.Samples (errs r)) = 3%nat).
Proof.
  intros r. subst r. unfold parseFromHAR.
  match goal with |- context [entriesLoop _ _ _ ?st0] =>
    destruct (entriesLoop_spec harUUID 0 (Entries log) st0) as (H1 & H2 & H3);
    set (r := entriesLoop harUUID 0 (Entries log) st0) in *
  end.
  simpl in H1, H2, H3.
  match type of H2 with _ = foldl _ ?e0 _ =>
    destruct (add_errors (allErrors (Entries log)) e0) as (_ & A2 & A3) end.
  rewrite <- H2 in A2, A3. simpl in A2, A3. specialize (A3 ltac:(lia)).
  assert (HS : sampled_err.Samples (errs r) = take 3 (allErrors (Entries log)))
    by exact A3.
  split; [lia|]. split; [lia|]. split; [exact HS|].
  split; [rewrite HS, length_take; lia|]. split; [exact H3|].
  intros Hlen Hreq Hbad.
  destruct (allErrors_responses (Entries log) Hreq) as [E1 E2].
  split; [lia|]. split; [lia|]. rewrite HS, length_take. lia.
Qed.

End ReplayFacts.

(** ** The REST transport and the command *)

Section RestFacts.

Context {Net Frames Ingest : Type} `{!rest.HTTPClient Net}.

Lemma sendRequest_missing_credentials (cfg : rest.Config) ctx req
    (w : rest.Wire Net) :
  rest.apiKeyID cfg = "" \/ rest.apiKeySecret cfg = "" ->
  exists msg, rest.sendRequest cfg ctx req w = (w, inl (rest.Plain msg)).
Proof.
  intros Hmiss. unfold rest.sendRequest.
  destruct (String.eqb (rest.apiKeyID cfg) "") eqn:Hid; [by eexists|].
  destruct (String.eqb (rest.apiKeySecret cfg) "") eqn:Hsec; [by eexists|].
  apply String.eqb_neq in Hid, Hsec. by destruct Hmiss.
Qed.

Lemma sendRequest_response (cfg : rest.Config) ctx req (w : rest.Wire Net)
    retryable n resp body :
  rest.apiKeyID cfg <> "" -> rest.apiKeySecret cfg <> "" ->
  rest.FromRequest (rest.decorate cfg req) = Ok retryable ->
  rest.Do (rest.net w) retryable = (n, Ok resp) ->
  rest.ReadAll resp = Ok body ->
  rest.sendRequest cfg ctx req w =
    ({| rest.net := n; rest.sent := rest.sent w ++ [retryable] |},
     if (rest.RespStatusCode resp <? 200) || (299 <? rest.RespStatusCode resp)
     then inl (rest.IsHTTPError {| rest.StatusCode := rest.RespStatusCode resp;
                                   rest.Body := body |})
     else inr body).
Proof.
  intros Hid Hsec Hfrom Hdo Hread. unfold rest.sendRequest.
  apply String.eqb_neq in Hid, Hsec. rewrite Hid, Hsec.
  unfold rest.decorate in Hfrom. simpl in Hfrom. rewrite Hfrom.
  rewrite Hdo, Hread.
  by destruct (_ || _).
Qed.

(** C8.  [sendRequest] turns the outcome of the HTTP exchange into an error
    value: a status outside 200..299 gives an [HTTPError] with the status
    and the response body; its message is the invalid-credentials hint for
    status 401 and quotes the status and the body for every other status.
    With the key identifier or the key secret missing, [sendRequest] returns
    an error without handing any request to the HTTP client.  An error of
    the request that opens the session makes [Run] return that error with
    the ingestion state untouched, and [RunE] hands it to its caller wrapped
    in [AkitaErr]. *)
Theorem sendRequest_errors (cfg : rest.Config) ctx req (w : rest.Wire Net) :
  (forall retryable n resp body,
      rest.apiKeyID cfg <> "" -> rest.apiKeySecret cfg <> "" ->
      rest.FromRequest (rest.decorate cfg req) = Ok retryable ->
      rest.Do (rest.net w) retryable = (n, Ok resp) ->
      rest.ReadAll resp = Ok body ->
      let status := rest.RespStatusCode resp in
      let out := (rest.sendRequest cfg ctx req w).2 in
      let he := {| rest.StatusCode := status; rest.Body := body |} in
      (status = 401 ->
       out = inl (rest.IsHTTPError he) /\
       rest.Error_string (rest.IsHTTPError he) = rest.invalidCredentials) /\
      (status < 200 \/ 299 < status -> status <> 401 ->
       out = inl (rest.IsHTTPError he) /\
       rest.Error_string (rest.IsHTTPError he) =
         "received status code " +:+ showInt status +:+ ", body: " +:+ body) /\
      (200 <= status <= 299 -> out = inr body)) /\
  (rest.apiKeyID cfg = "" \/ rest.apiKeySecret cfg = "" ->
   exists msg, rest.sendRequest cfg ctx req w = (w, inl (rest.Plain msg))) /\
  (forall (ingest : Frames -> Ingest -> Ingest) frames (s : Ingest)
          {T P : Type} (tgs : T) (ps : P) err,
      (rest.sendRequest cfg None req w).2 = inl err ->
      apidump.Run cfg req ingest frames (w, s) =
        ((rest.sendRequest cfg None req w).1, s, Some err) /\
      apidump.RunE (Ok tgs) (Ok ps)
        (fun _ _ st => apidump.Run cfg req ingest frames st) (w, s) =
        (((rest.sendRequest cfg None req w).1, s), Some (apidump.AkitaErr err))).
Proof.
  split; [|split].
  - intros retryable n resp body Hid Hsec Hfrom Hdo Hread status out he.
    subst out. rewrite (sendRequest_response cfg ctx req w retryable n resp body)
      by done. simpl. fold status. fold he.
    split; [|split].
    + intros H401. split; [by rewrite H401|].
      unfold rest.HTTPError_Error. subst he. simpl. by rewrite H401.
    + intros Hout Hne. split.
      * assert ((status <? 200) || (299 <? status) = true) as ->; [|done].
        apply orb_true_iff. rewrite !Z.ltb_lt. exact Hout.
      * unfold rest.HTTPError_Error. subst he. simpl.
        apply Z.eqb_neq in Hne. by rewrite Hne.
    + intros Hin.
      assert ((status <? 200) || (299 <? status) = false) as ->; [|done].
      apply orb_false_iff. rewrite !Z.ltb_ge. lia.
  - apply sendRequest_missing_credentials.
  - intros ingest frames s T P tgs ps err Herr.
    unfold apidump.Run, apidump.RunE. simpl.
    destruct (rest.sendRequest cfg None req w) as [w' [e|b]]; simpl in *; [|done].
    by injection Herr as ->.
Qed.

End RestFacts.

(** ** Scenarios *)

Section Scenarios.

Import Demo.

(** [queueUpload] with the plugins [tagger] and [strict]: a request passes
    both and is queued redacted; a response is vetoed by [strict]. *)
Example queueUpload_passes :
  let c := NewBackendCollector 1%N 2%N accepting Inbound [tagger; strict] in
  let w := entryOf (requestFrame (sec 1)) requestPartial in
  let s := queueUpload (sec 1) w c world0 in
  trace s.2 = [EvQueueUpload w; EvTransform "tagger" "req GET /";
               EvTransform "strict" "req GET /!"; EvObfuscate "req GET /!"] /\
  batcher.queue (uploadBatch s.1) =
    [(sec 1, setWitness w {| wMethod := "#req GET /!" |})].
Proof. split; vm_compute; reflexivity. Qed.

Example queueUpload_vetoed :
  let c := NewBackendCollector 1%N 2%N accepting Inbound [tagger; strict] in
  let w := entryOf (responseFrame (sec 1)) responsePartial in
  let s := queueUpload (sec 1) w c world0 in
  trace s.2 = [EvQueueUpload w; EvTransform "tagger" "resp 200";
               EvTransform "strict" "resp 200!";
               EvPrint LError "plugin %q returned error, skipping: %v"
                       ["strict"; "responses not allowed"]] /\
  batcher.queue (uploadBatch s.1) = [].
Proof. split; vm_compute; reflexivity. Qed.

(** C1, as stated, fails.  The previous call was at second 100.  A request
    observed at second 100 is processed at second 200: it is filed and, a
    sweep being due and the request more than a minute old, handed over at
    once with its own side only.  Its response, processed one second later,
    finds nothing to pair with and is filed: the one record handed over is
    not the merged exchange, and the key is still cached. *)
Lemma pairing_missed_after_sweep :
  let s1 := Process (sec 200) (requestFrame (sec 100))
                    warmCollector.1 warmCollector.2 in
  let s2 := Process (sec 201) (responseFrame (sec 201)) s1.1 s1.2 in
  handed (trace s2.2) = [entryOf (requestFrame (sec 100)) requestPartial] /\
  witness (entryOf (requestFrame (sec 100)) requestPartial) <>
    MergeWitness (pwWitness requestPartial) (pwWitness responsePartial) /\
  pairCache s2.1 !! 42%N =
    Some (entryOf (responseFrame (sec 201)) responsePartial).
Proof.
  split; [vm_compute; reflexivity|]. split; [vm_compute; intros H; inversion H|].
  vm_compute. reflexivity.
Qed.

(** The amended C1 at work: the response arrives first, the request
    second; the record handed over has the addressing of the request. *)
Lemma pairing_one_exchange_witness :
  let s1 := Process (sec 1) (responseFrame (sec 1)) collector0 world0 in
  let s2 := Process (sec 3) (requestFrame (sec 3)) s1.1 s1.2 in
  let ex := pairedRecord true (entryOf (responseFrame (sec 1)) responsePartial)
                         requestPartial in
  srcIP ex = client /\ srcPort ex = 51000 /\
  pairCache s2.1 !! 42%N = None.
Proof.
  destruct (pairing_one_exchange (sec 1) (sec 3)
              (responseFrame (sec 1)) (requestFrame (sec 3))
              responsePartial requestPartial collector0 world0
              (Process (sec 1) (responseFrame (sec 1)) collector0 world0).1
              (Process (sec 1) (responseFrame (sec 1)) collector0 world0).2)
    as (_ & _ & _ & _ & Hip & Hport & Hgone).
  - apply reach_new.
  - apply reach_Process, reach_new.
  - reflexivity.
  - reflexivity.
  - reflexivity.
  - reflexivity.
  - reflexivity.
  - vm_compute. reflexivity.
  - intros _. split; reflexivity.
  - simpl. lia.
  - exact (conj Hip (conj Hport Hgone)).
Defined.

(** C2.  [Close] misses the entries stamped at or after its clock reading.
    A response stamped with second 260, as an entry of a replayed archive
    can be, is filed at second 200 and [Close] is called at second 200:
    [Close] sweeps with the time of the call as cutoff, and the entry, not
    observed before it, is handed over by no one and is still in the pair
    cache when [Close] returns. *)
Lemma close_keeps_entry_stamped_ahead :
  let s2 := Close (sec 200) cachedResponse.1 cachedResponse.2 in
  pairCache cachedResponse.1 !! 42%N =
    Some (entryOf (responseFrame (sec 260)) responsePartial) /\
  handed (trace s2.2) = [] /\
  pairCache s2.1 !! 42%N =
    Some (entryOf (responseFrame (sec 260)) responsePartial).
Proof. repeat split; vm_compute; reflexivity. Qed.

Lemma cachedRequest_cache :
  pairCache cachedRequest.1 =
    {[ 42%N := entryOf (requestFrame (sec 100)) requestPartial ]}.
Proof. vm_compute. reflexivity. Qed.

(** X18 at work: at second 200 a sweep is due for the collector that filed
    a request at second 100. *)
Lemma sweep_emits_once_witness :
  emitsOnce (time.Add (sec 200) (-1 * pairCacheExpiration))
            (Process_body (sec 200) (otherFrame (sec 200))
                          cachedRequest.1 cachedRequest.2).1
            (Process_body (sec 200) (otherFrame (sec 200))
                          cachedRequest.1 cachedRequest.2).2
            (Process (sec 200) (otherFrame (sec 200))
                     cachedRequest.1 cachedRequest.2).
Proof.
  destruct (sweep_emits_once (sec 200) (otherFrame (sec 200))
              cachedRequest.1 cachedRequest.2) as [Hsweep _].
  - apply reach_Process, reach_new.
  - reflexivity.
  - exact Hsweep.
Defined.

(** X19 at work: the request filed at second 100 is older than a [Close]
    at second 300, which leaves the pair cache empty. *)
Lemma Close_emits_earlier_entries_witness :
  pairCache (Close (sec 300) cachedRequest.1 cachedRequest.2).1 = ∅.
Proof.
  destruct (Close_emits_earlier_entries (sec 300)
              cachedRequest.1 cachedRequest.2) as (es & _ & _ & Hempty).
  - apply reach_Process, reach_new.
  - rewrite cachedRequest_cache.
    intros k e [<- <-]%lookup_singleton_Some. reflexivity.
  - exact Hempty.
Defined.

(** C9.  A second [Close] is not a no-op after a first one that missed an
    entry.  After the [Close] at second 200 of the scenario above the pair
    cache still holds the response; a second [Close], at second 300, sweeps
    a pair cache that is not empty, hands the entry to [queueUpload] and
    ships it: the second call submits a batch that the first did not. *)
Lemma second_close_ships :
  let s2 := Close (sec 200) cachedResponse.1 cachedResponse.2 in
  let s3 := Close (sec 300) s2.1 s2.2 in
  pairCache s2.1 <> ∅ /\
  submissions (trace s2.2) = [] /\
  handed (trace s3.2) = [entryOf (responseFrame (sec 260)) responsePartial] /\
  length (submissions (trace s3.2)) = 1%nat.
Proof.
  split; [|repeat split; vm_compute; reflexivity].
  intros Hempty. apply (f_equal (fun m => m !! 42%N)) in Hempty.
  vm_compute in Hempty. discriminate Hempty.
Qed.

(** C10 at work: ten seconds after the previous call no sweep runs, and the
    request filed at second 100 stays cached. *)
Lemma sweep_is_lazy_witness :
  pairCache (Process (sec 110) (otherFrame (sec 110))
                     cachedRequest.1 cachedRequest.2).1 !! 42%N =
    Some (entryOf (requestFrame (sec 100)) requestPartial).
Proof.
  destruct (sweep_is_lazy (sec 110) (otherFrame (sec 110))
              cachedRequest.1 cachedRequest.2) as [Hlazy _].
  destruct Hlazy as (_ & Hstay & _).
  - right. vm_compute. discriminate.
  - apply Hstay.
    + rewrite cachedRequest_cache. apply lookup_singleton_eq.
    + intros p Hp. discriminate Hp.
Defined.

(** C3 at work: the tenth record flushes the batch at once; a batch of
    nine is flushed by the timer once its oldest record is 39 seconds
    old. *)
Lemma batch_flush_triggers_witness :
  let b := batcher.setQueue nineQueued (uploadBatch collector0) in
  batcher.Add (sec 2) (hashable 2%N) b world0 =
    (batcher.setQueue [] b,
     uploadWitnesses Inbound accepting 2%N
                     (map snd nineQueued ++ [hashable 2%N]) world0) /\
  batcher.timeTrigger (sec 40) b world0 =
    (batcher.setQueue [] b,
     uploadWitnesses Inbound accepting 2%N (map snd nineQueued) world0).
Proof.
  destruct (batch_flush_triggers 1%N 2%N accepting Inbound [] nineQueued
              (sec 2) (hashable 2%N) world0) as (_ & _ & _ & Hfull & _).
  destruct (batch_flush_triggers 1%N 2%N accepting Inbound [] nineQueued
              (sec 40) (hashable 2%N) world0) as (_ & _ & _ & _ & Htimer).
  split.
  - apply Hfull. simpl. lia.
  - apply (Htimer (sec 1) (hashable 1%N) (replicate 8 (sec 1, hashable 1%N))).
    + reflexivity.
    + reflexivity.
Defined.

(** C4 at work: of three records the second does not hash; the two others
    are reported, and so is the failure. *)
Lemma uploadWitnesses_failures_witness :
  okReports Inbound [hashable 1%N; unhashable; hashable 2%N] =
    okReports Inbound [hashable 1%N] ++ okReports Inbound [hashable 2%N] /\
  conversionWarnings Inbound [hashable 1%N; unhashable; hashable 2%N] =
    conversionWarnings Inbound [hashable 1%N] ++
    EvPrint LWarning "Failed to convert witness to report: %v\n"
            ["failed to hash witness proto: empty message"] ::
    conversionWarnings Inbound [hashable 2%N].
Proof.
  destruct (uploadWitnesses_failures Inbound refusing 2%N
              [hashable 1%N; unhashable; hashable 2%N] world0)
    as (_ & _ & Hdrop & _).
  apply (Hdrop [hashable 1%N] unhashable [hashable 2%N]); reflexivity.
Defined.

(** C6 at work: the archive of 10 entries with 3 malformed responses. *)
Lemma parseFromHAR_counts_witness :
  let r := apispec.parseFromHAR 7%N [] archive in
  apispec.successfulEntries r = 7 /\
  sampled_err.TotalCount (apispec.errs r) = 3 /\
  length (sampled_err.Samples (apispec.errs r)) = 3%nat.
Proof.
  destruct (parseFromHAR_counts 7%N [] archive) as (_ & _ & _ & _ & _ & Hten).
  apply Hten.
  - reflexivity.
  - repeat constructor.
  - vm_compute. reflexivity.
Defined.

(** C8 at work: with credentials and a service that answers 401 the error
    is the invalid-credentials one; without credentials no request is
    sent. *)
Lemma sendRequest_errors_witness :
  (@rest.sendRequest nat (answering 401 "denied") credentials None
                     openSession wire0).2 =
    inl (rest.IsHTTPError {| rest.StatusCode := 401; rest.Body := "denied" |}) /\
  rest.Error_string
    (rest.IsHTTPError {| rest.StatusCode := 401; rest.Body := "denied" |}) =
    rest.invalidCredentials /\
  exists msg,
    @rest.sendRequest nat (answering 401 "denied") noCredentials None
                      openSession wire0 = (wire0, inl (rest.Plain msg)).
Proof.
  destruct (@sendRequest_errors nat unit unit (answering 401 "denied")
              credentials None openSession wire0) as (Hstatus & _ & _).
  destruct (@sendRequest_errors nat unit unit (answering 401 "denied")
              noCredentials None openSession wire0) as (_ & Hmissing & _).
  destruct (Hstatus (rest.decorate credentials openSession) 1%nat
              {| rest.RespStatusCode := 401; rest.ReadAll := Ok "denied" |}
              "denied") as ((Hout & Hmsg) & _); try done.
  split; [exact Hout|]. split; [exact Hmsg|].
  apply Hmissing. by left.
Defined.

End Scenarios.

(** * Further properties of the code *)

Section CollectorMore.

Context {Method ExtState Payload : Type}.
Context `{!Externals Method ExtState Payload}.

Implicit Types (c : BackendCollector Method ExtState)
               (wd : World Method ExtState)
               (w e : witnessWithInfo Method)
               (t : ParsedNetworkTraffic Payload).

(** X1.  [Process] stamps [lastProcessTime] with the clock reading of its
    deferred function on every path, and neither [Process] nor [Close]
    changes the service, the session, the client, the direction, the
    plugins or the limits of the batch; [Close] leaves [lastProcessTime]
    alone. *)
Theorem Process_Close_keep_config now t c wd :
  lastProcessTime (Process now t c wd).1 = now /\
  config (Process now t c wd).1 = config c /\
  lastProcessTime (Close now c wd).1 = lastProcessTime c /\
  config (Close now c wd).1 = config c.
Proof.
  split; [|split; [|split]].
  - rewrite Process_eq. unfold Process_deferred.
    destruct (sweepDue now _); [|done]. by destruct (flushPairCache _ _ _ _).
  - rewrite Process_eq.
    destruct (Process_body_config now t c wd) as [Hcfg _].
    destruct (sweepDue now (Process_body now t c wd).1) eqn:Hd.
    + rewrite Process_deferred_sweep by done.
      destruct (flushPairCache_state now
                  (time.Add now (-1 * pairCacheExpiration))
                  (Process_body now t c wd).1 (Process_body now t c wd).2)
        as (_ & _ & Hc).
      change (config (setLastProcessTime now ?x, ?y).1) with (config x).
      congruence.
    + by rewrite Process_deferred_idle.
  - rewrite Close_eq. simpl.
    by destruct (flushPairCache_state now now c wd) as (_ & -> & _).
  - rewrite Close_eq.
    destruct (flushPairCache_state now now c wd) as (_ & _ & Hc).
    destruct (batcher_flush_frame (uploadBatch (flushPairCache now now c wd).1)
                (flushPairCache now now c wd).2) as (H1 & H2 & H3 & _).
    rewrite <- Hc. unfold config, batcher.Close. simpl. by rewrite H1, H2, H3.
Qed.

Lemma Process_deferred_cache_sub now c wd :
  pairCache (Process_deferred now c wd).1 ⊆ pairCache c /\
  (sweepDue now c = false -> pairCache (Process_deferred now c wd).1 = pairCache c).
Proof.
  destruct (sweepDue now c) eqn:Hd.
  - rewrite Process_deferred_sweep by done.
    destruct (flushPairCache_state now (time.Add now (-1 * pairCacheExpiration))
                c wd) as (Hc & _).
    change (pairCache (setLastProcessTime now ?x, ?y).1) with (pairCache x).
    rewrite Hc. split; [apply map_filter_subseteq|done].
  - by rewrite Process_deferred_idle.
Qed.

(** X2.  A frame that is not an HTTP request or response, or that does not
    parse, is neither filed nor paired: for it [Process] is its deferred
    function alone, after one debug line in the case of a parse error.  The
    deferred function still runs, so such a frame can trigger a sweep and
    always moves [lastProcessTime]; the pair cache can only lose entries,
    and loses none when no sweep is due. *)
Theorem Process_skips_unparsed now t c wd :
  (isRequest t || isResponse t = false ->
   Process now t c wd = Process_deferred now c wd) /\
  (forall err,
      isRequest t || isResponse t = true -> ParseHTTP (Content t) = Err err ->
      Process now t c wd =
        Process_deferred now c
          (emit (EvPrint LDebug "Failed to parse HTTP, skipping: %v\n" [err])
                wd)) /\
  (isRequest t || isResponse t = false \/
   (exists err, ParseHTTP (Content t) = Err err) ->
   pairCache (Process now t c wd).1 ⊆ pairCache c /\
   (sweepDue now c = false -> pairCache (Process now t c wd).1 = pairCache c)).
Proof.
  split; [|split].
  - intros Hno. by rewrite Process_eq, Process_body_eq, Hno.
  - intros err Hhttp Herr. by rewrite Process_eq, Process_body_eq, Hhttp, Herr.
  - intros Hskip. rewrite Process_eq.
    assert (Hb : (Process_body now t c wd).1 = c).
    { rewrite Process_body_eq. destruct (_ || _) eqn:Hh; [|done].
      destruct Hskip as [?|[err ->]]; done. }
    rewrite Hb. apply Process_deferred_cache_sub.
Qed.

Lemma uint16_range (x : Z) : 0 <= uint16 x < 2 ^ 16.
Proof. unfold uint16. apply Z.mod_pos_bound. lia. Qed.

Lemma pairedRecord_ports b e (p : PartialWitness) :
  portsInRange e -> portsInRange (pairedRecord b e p).
Proof. unfold portsInRange, pairedRecord. destruct b; simpl; tauto. Qed.

Lemma reachable_ports c :
  reachable (Payload := Payload) c ->
  map_Forall (fun _ e => portsInRange e) (pairCache c).
Proof.
  induction 1 as [svc lrn lc d ps|now t c wd _ IH|now c wd _ IH|now c wd _ IH].
  - apply map_Forall_empty.
  - apply (Process_Forall (fun _ e => portsInRange e)); [|exact IH].
    intros p _. split; apply uint16_range.
  - by apply (Close_Forall (fun _ e => portsInRange e)).
  - by destruct (batchTimer_frame now c wd) as (-> & _).
Qed.

(** What [Process] hands to [queueUpload]: the pair the frame completes, if
    any, then the victims of the sweep, if one runs; all of them were cached
    or are the pair made of a cached record. *)
Lemma Process_handed_from now t c wd :
  reachable (Payload := Payload) c ->
  exists hs,
    handed (trace (Process now t c wd).2) = handed (trace wd) ++ hs /\
    forall w, w ∈ hs ->
      (exists k, pairCache c !! k = Some w) \/
      (exists p e, ParseHTTP (Content t) = Ok p /\
                   pairCache c !! PairKey p = Some e /\
                   w = pairedRecord (isRequest t) e p) \/
      (exists p, ParseHTTP (Content t) = Ok p /\ w = entryOf t p).
Proof.
  intros Hreach. destruct (reachable_invariants c Hreach) as [Hw Hwf].
  rewrite Process_eq.
  destruct (Process_deferred_spec now (Process_body now t c wd).1
              (Process_body now t c wd).2 (Process_body_wired now t c wd Hw)
              (Process_body_cacheWF now t c wd Hwf))
    as ((hs & Hh & Hfrom) & _).
  rewrite Hh. clear Hh.
  rewrite Process_body_eq in Hfrom |- *.
  destruct (isRequest t || isResponse t).
  - destruct (ParseHTTP (Content t)) as [p|err].
    + destruct (pairCache c !! PairKey p) as [e|] eqn:Hk.
      * rewrite queueUpload_handed by done.
        exists (pairedRecord (isRequest t) e p :: hs).
        split; [by rewrite <- app_assoc|].
        intros w [->|Hin]%elem_of_cons.
        -- right. left. by exists p, e.
        -- destruct (Hfrom w Hin) as [Hc _].
           destruct (queueUpload_state now (pairedRecord (isRequest t) e p)
                       (setPairCache (delete (PairKey p) (pairCache c)) c) wd)
             as (Hq & _).
           rewrite Hq in Hc. simpl in Hc.
           left. exists (id w). by apply lookup_delete_Some in Hc as [_ ?].
      * exists hs. split; [done|]. intros w Hin.
        destruct (Hfrom w Hin) as [Hc _]. simpl in Hc.
        apply lookup_insert_Some in Hc as [[_ <-]|[_ Hc]].
        -- right. right. by exists p.
        -- left. by exists (id w).
    + exists hs. simpl. rewrite handed_app. simpl. rewrite List.app_nil_r.
      split; [done|]. intros w Hin. destruct (Hfrom w Hin) as [Hc _].
      left. by exists (id w).
  - exists hs. split; [done|]. intros w Hin. destruct (Hfrom w Hin) as [Hc _].
    left. by exists (id w).
Qed.

(** X3.  Whatever integers the frames carry as ports, the ports of every
    record cached in a collector in use, and of every record a [Process]
    call hands to [queueUpload], are 16-bit numbers: [Process] stores them
    through [uint16], and pairing only swaps them. *)
Theorem ports_are_16_bit now t c wd :
  reachable (Payload := Payload) c ->
  map_Forall (fun _ e => portsInRange e) (pairCache c) /\
  exists hs,
    handed (trace (Process now t c wd).2) = handed (trace wd) ++ hs /\
    Forall portsInRange hs.
Proof.
  intros Hreach. pose proof (reachable_ports c Hreach) as Hports.
  split; [exact Hports|].
  destruct (Process_handed_from now t c wd Hreach) as (hs & Hh & Hfrom).
  exists hs. split; [exact Hh|]. apply Forall_forall. intros w Hin.
  destruct (Hfrom w Hin) as [[k Hk]|[(p & e & _ & Hk & ->)|(p & _ & ->)]].
  - by apply (Hports k w).
  - apply pairedRecord_ports. by apply (Hports (PairKey p) e).
  - split; apply uint16_range.
Qed.

(** X4.  A [Process] call adds at most one entry to the pair cache, and only
    under the pairing key of its own frame; every other key cached after
    the call was cached before.  [Close] adds none. *)
Theorem Process_cache_growth now t c wd :
  (forall k, is_Some (pairCache (Process now t c wd).1 !! k) ->
             is_Some (pairCache c !! k) \/
             exists p, ParseHTTP (Content t) = Ok p /\ PairKey p = k) /\
  (size (pairCache (Process now t c wd).1) <= S (size (pairCache c)))%nat /\
  pairCache (Close now c wd).1 ⊆ pairCache c.
Proof.
  assert (Hbody :
    (forall k, is_Some (pairCache (Process_body now t c wd).1 !! k) ->
               is_Some (pairCache c !! k) \/
               exists p, ParseHTTP (Content t) = Ok p /\ PairKey p = k) /\
    (size (pairCache (Process_body now t c wd).1) <= S (size (pairCache c)))%nat).
  { rewrite Process_body_eq. destruct (_ || _); [|by auto].
    destruct (ParseHTTP (Content t)) as [p|err]; [|by auto].
    destruct (pairCache c !! PairKey p) as [e|] eqn:Hk.
    - destruct (queueUpload_state now (pairedRecord (isRequest t) e p)
                  (setPairCache (delete (PairKey p) (pairCache c)) c) wd)
        as (-> & _). simpl. split.
      + intros k [x [_ Hx]%lookup_delete_Some]. left. by exists x.
      + pose proof (map_subseteq_size _ _ (delete_subseteq (pairCache c) (PairKey p))).
        lia.
    - simpl. split.
      + intros k [x [[<- _]|[_ Hx]]%lookup_insert_Some].
        * right. by exists p.
        * left. by exists x.
      + by rewrite map_size_insert_None. }
  destruct Hbody as [Hkeys Hsize].
  destruct (Process_deferred_cache_sub now (Process_body now t c wd).1
              (Process_body now t c wd).2) as [Hsub _].
  split; [|split].
  - intros k [x Hx]. rewrite Process_eq in Hx. apply Hkeys. exists x.
    by eapply lookup_weaken.
  - rewrite Process_eq. pose proof (map_subseteq_size _ _ Hsub). lia.
  - rewrite Close_eq. simpl.
    destruct (flushPairCache_state now now c wd) as (-> & _).
    apply map_filter_subseteq.
Qed.

Lemma flush_loop_none clk cutoff
    (l : list (WitnessID * witnessWithInfo Method))
    (s : BackendCollector Method ExtState * World Method ExtState) :
  (forall ke, ke ∈ l -> ~ expired cutoff ke) ->
  foldl (flushStep clk cutoff) s l = s.
Proof.
  revert s. induction l as [|ke l IH]; intros s Hnone; [done|].
  simpl. assert (Hke : flushStep clk cutoff s ke = s).
  { unfold flushStep. specialize (Hnone ke ltac:(left)).
    unfold expired in Hnone. apply not_true_is_false in Hnone.
    by rewrite Hnone. }
  rewrite Hke. apply IH. intros ke' Hin. apply Hnone. by right.
Qed.

Lemma flushPairCache_none clk cutoff c wd :
  (forall k e, pairCache c !! k = Some e -> cutoff <= observationTime e) ->
  flushPairCache clk cutoff c wd = (c, wd).
Proof.
  intros Hyoung. unfold flushPairCache. apply flush_loop_none.
  intros [k e] Hin He.
  rewrite (rangeOrder_perm (pairCache c)) in Hin.
  apply elem_of_map_to_list in Hin. specialize (Hyoung k e Hin).
  unfold expired, time.Before in He. simpl in He. apply Z.ltb_lt in He. lia.
Qed.

(** X5.  A sweep of a pair cache in which no entry was observed before the
    cutoff, an empty cache included, does nothing at all: [flushPairCache]
    returns the collector and the world as they were, and calls neither a
    plugin nor the batcher. *)
Theorem flushPairCache_nothing_due clk cutoff c wd :
  (forall k e, pairCache c !! k = Some e -> cutoff <= observationTime e) ->
  flushPairCache clk cutoff c wd = (c, wd) /\
  victims cutoff c = [].
Proof.
  intros Hyoung. split; [by apply flushPairCache_none|].
  destruct (victims cutoff c) as [|[k e] vs] eqn:Hv; [done|].
  assert (Hin : (k, e) ∈ victims cutoff c) by (rewrite Hv; left).
  apply elem_of_victims in Hin as [Hk Hb]. specialize (Hyoung k e Hk).
  unfold time.Before in Hb. apply Z.ltb_lt in Hb. lia.
Qed.

(** X6.  Sweeping is idempotent: after a sweep, a second one with the same
    or an earlier cutoff finds nothing to do and returns the collector and
    the world of the first. *)
Theorem flushPairCache_again clk1 clk2 cutoff1 cutoff2 c wd :
  cutoff2 <= cutoff1 ->
  flushPairCache clk2 cutoff2 (flushPairCache clk1 cutoff1 c wd).1
                 (flushPairCache clk1 cutoff1 c wd).2 =
    flushPairCache clk1 cutoff1 c wd.
Proof.
  intros Hle.
  destruct (flushPairCache_state clk1 cutoff1 c wd) as (Hc & _).
  rewrite flushPairCache_none; [by destruct (flushPairCache clk1 cutoff1 c wd)|].
  intros k e Hk. rewrite Hc in Hk.
  apply map_lookup_filter_Some in Hk as [_ Hne].
  unfold expired, time.Before in Hne. simpl in Hne.
  destruct (Z.ltb_spec (observationTime e) cutoff1); [done|lia].
Qed.

(** X7.  Whether a sweep is due depends on the clock alone, and the
    saturation of [Sub] never shows: a sweep is due exactly when
    [lastProcessTime] is not the zero time and lies more than 30 seconds
    before the clock reading.  Once due, a sweep stays due at every later
    reading until the next call. *)
Theorem sweepDue_iff now c :
  (sweepDue now c = true <->
   lastProcessTime c <> 0 /\
   lastProcessTime c + pairCacheCleanupInterval < now) /\
  (forall now', now <= now' -> sweepDue now c = true -> sweepDue now' c = true).
Proof.
  assert (Hiff : forall n,
    sweepDue n c = true <->
    lastProcessTime c <> 0 /\ lastProcessTime c + pairCacheCleanupInterval < n).
  { intros n. unfold sweepDue, time.IsZero, time.Sub.
    rewrite andb_true_iff, negb_true_iff, Z.eqb_neq, Z.ltb_lt.
    unfold pairCacheCleanupInterval, time.minDuration, time.maxDuration,
      time.Second, time.Millisecond.
    change (2 ^ 63) with 9223372036854775808.
    cbv zeta.
    repeat match goal with
           | |- context [?a <? ?b] => destruct (Z.ltb_spec a b)
           end; lia. }
  split; [apply Hiff|].
  intros now' Hle Hd. apply Hiff. apply Hiff in Hd. lia.
Qed.

(** X8.  [Process] pairs by key alone.  An HTTP frame whose pairing key is
    cached is merged into the cached record whatever side that record
    holds, a second request into a cached request as well: the call hands
    to [queueUpload] exactly one record with that key, the cached record
    with the witness of the frame merged into it, its addressing swapped if
    and only if the frame is a request, its observation time and identifier
    those of the cached record; the key leaves the cache. *)
Theorem Process_pairs_by_key now t p e c wd :
  reachable (Payload := Payload) c ->
  isRequest t || isResponse t = true ->
  ParseHTTP (Content t) = Ok p ->
  pairCache c !! PairKey p = Some e ->
  let s := Process now t c wd in
  let ex := pairedRecord (isRequest t) e p in
  (exists hs,
     handed (trace s.2) = handed (trace wd) ++ ex :: hs /\
     filter (fun w => id w = PairKey p) hs = []) /\
  witness ex = MergeWitness (witness e) (pwWitness p) /\
  observationTime ex = observationTime e /\
  id ex = PairKey p /\
  (srcIP ex, srcPort ex, dstIP ex, dstPort ex) =
    (if isRequest t then (dstIP e, dstPort e, srcIP e, srcPort e)
     else (srcIP e, srcPort e, dstIP e, dstPort e)) /\
  pairCache s.1 !! PairKey p = None.
Proof.
  intros [Hw Hwf]%reachable_invariants Hhttp Hp Hk s ex.
  set (k := PairKey p) in *.
  set (c2 := setPairCache (delete k (pairCache c)) c).
  assert (Hb : Process_body now t c wd = queueUpload now ex c2 wd).
  { rewrite Process_body_eq, Hhttp, Hp. fold k. by rewrite Hk. }
  assert (Hw2 : batchWired c2) by done.
  assert (Hwf2 : cacheWF c2).
  { unfold cacheWF, c2. simpl. by apply map_Forall_delete. }
  destruct (queueUpload_state now ex c2 wd) as (Hq1 & _ & Hq3).
  pose proof (queueUpload_handed now ex c2 wd Hw2) as Hq4.
  assert (Hw2' : batchWired (queueUpload now ex c2 wd).1)
    by by eapply batchWired_config.
  assert (Hwf2' : cacheWF (queueUpload now ex c2 wd).1)
    by by unfold cacheWF; rewrite Hq1.
  destruct (Process_deferred_spec now _ (queueUpload now ex c2 wd).2 Hw2' Hwf2')
    as ((hs & Hh & Hfrom) & _ & Hgone & _ & _).
  assert (Hs : s = Process_deferred now (queueUpload now ex c2 wd).1
                                     (queueUpload now ex c2 wd).2).
  { subst s. by rewrite Process_eq, Hb. }
  assert (Hid : id e = k) by by apply (Hwf k e).
  split; [|split; [|split; [|split; [|split]]]].
  - exists hs. split.
    + rewrite Hs, Hh, Hq4. by rewrite <- app_assoc.
    + apply filter_id_none. intros w Hin Hidw.
      destruct (Hfrom w Hin) as [Hc _].
      rewrite Hidw, Hq1 in Hc. unfold c2 in Hc. simpl in Hc.
      by rewrite lookup_delete_eq in Hc.
  - subst ex. unfold pairedRecord. by destruct (isRequest t).
  - subst ex. unfold pairedRecord. by destruct (isRequest t).
  - subst ex. unfold pairedRecord. by destruct (isRequest t).
  - subst ex. unfold pairedRecord. by destruct (isRequest t).
  - rewrite Hs. apply Hgone. rewrite Hq1. unfold c2. simpl.
    apply lookup_delete_eq.
Qed.

End CollectorMore.

Section UploadMore.

Context {Method ExtState Payload : Type}.
Context `{!Externals Method ExtState Payload}.

Lemma toReport_envelope d (w : witnessWithInfo Method) r :
  toReport w d = Ok r -> envelopeOf d w r.
Proof.
  unfold toReport, envelopeOf.
  destruct (HashProto (witness w)) as [h|?]; [|done].
  destruct (Marshal (witness w)) as [b|?]; [|done].
  intros [= <-]. simpl. repeat split; eauto.
Qed.

Lemma okReports_envelopes d (items : list (witnessWithInfo Method)) :
  Forall2 (envelopeOf d) (filter (fun w => converts d w = true) items)
          (okReports d items).
Proof.
  induction items as [|w items IH]; [constructor|].
  unfold okReports, converts in *. simpl.
  destruct (toReport w d) as [r|err] eqn:Hr.
  - rewrite filter_cons_True by by rewrite Hr.
    constructor; [by apply toReport_envelope|exact IH].
  - rewrite filter_cons_False by by rewrite Hr. exact IH.
Qed.

(** X9.  [uploadWitnesses] submits once whatever the batch, an empty list
    when the batch is empty or nothing converts.  The reports submitted are,
    in order, the envelopes of exactly those items whose witness hashes and
    marshals: each carries the direction of the collector, the addressing,
    time and identifier of its item and the hash of the item's witness.
    Nothing is submitted for the other items, so the list is as long as the
    batch exactly when every item converts. *)
Theorem uploadWitnesses_reports d lc lrn (items : list (witnessWithInfo Method))
    (wd : World Method ExtState) :
  exists reports,
    submissions (trace (uploadWitnesses d lc lrn items wd)) =
      submissions (trace wd) ++ [(30 * time.Second, lrn, reports)] /\
    Forall2 (envelopeOf d) (filter (fun w => converts d w = true) items)
            reports /\
    (length reports <= length items)%nat /\
    (length reports = length items <->
     Forall (fun w => converts d w = true) items) /\
    (forall w, converts d w = true <->
               exists h b, HashProto (witness w) = Ok h /\
                           Marshal (witness w) = Ok b).
Proof.
  exists (okReports d items).
  pose proof (okReports_envelopes d items) as Henv.
  pose proof (Forall2_length _ _ _ Henv) as Hlen.
  split; [|split; [exact Henv|split; [|split]]].
  - rewrite uploadWitnesses_world. simpl.
    rewrite !submissions_app, submissions_conversionWarnings. simpl.
    by destruct (ReportWitnesses _ _ _ _).2.
  - rewrite <- Hlen. apply length_filter.
  - rewrite <- Hlen. split.
    + intros Heq. clear -Heq.
      induction items as [|w items IH]; [constructor|].
      destruct (decide (converts d w = true)) as [Hc|Hc].
      * rewrite filter_cons_True in Heq by done. simpl in Heq.
        constructor; [done|]. apply IH. lia.
      * rewrite filter_cons_False in Heq by done. simpl in Heq.
        pose proof (length_filter (fun w => converts d w = true) items). lia.
    + intros Hall. clear -Hall. induction Hall as [|w items Hc _ IH]; [done|].
      rewrite filter_cons_True by done. simpl. by rewrite IH.
  - intros w. unfold converts, toReport.
    destruct (HashProto (witness w)) as [h|?].
    + destruct (Marshal (witness w)) as [b|?].
      * split; [by eexists _, _|done].
      * split; [done|]. by intros (? & ? & _ & ?).
    + split; [done|]. by intros (? & ? & ? & _).
Qed.

End UploadMore.

Section ReplayMore.

Import apispec.

Context {Payload HarRequest HarResponse C : Type}.
Context `{!Collector Payload C} `{!FromHAR Payload HarRequest HarResponse}.

Implicit Types (entry : Entry HarRequest HarResponse)
               (entries : list (Entry HarRequest HarResponse))
               (st : LoopState C).

Lemma entryFrames_replay harUUID (i : nat) entry :
  entryReplay harUUID i entry (entryFrames harUUID (Z.of_nat i) entry).
Proof.
  unfold entryReplay, entryFrames.
  eexists _, _. split; [reflexivity|]. split; [|split].
  - apply Forall_app. split.
    + destruct (Request entry) as [h|]; [|constructor].
      destruct (convertRequest h) as [req|]; [|constructor].
      constructor; [|constructor]. unfold replayFrameAt. simpl.
      repeat split; try done. left. by eexists.
    + destruct (Response entry) as [h|]; [|constructor].
      destruct (convertResponse h) as [resp|]; [|constructor].
      constructor; [|constructor]. unfold replayFrameAt. simpl.
      repeat split; try done. right. by eexists.
  - destruct (Request entry) as [h|]; [|done].
    destruct (convertRequest h) as [req|]; [|done]. by eexists _, _.
  - destruct (Response entry) as [h|]; [|done].
    destruct (convertResponse h) as [resp|]; [|done]. by eexists _, _.
Qed.

Lemma framesFrom_imap harUUID (n : nat) entries :
  framesFrom harUUID (Z.of_nat n) entries =
    concat (imap (fun i entry => entryFrames harUUID (Z.of_nat (n + i)) entry)
                 entries).
Proof.
  revert n. induction entries as [|entry entries IH]; intros n; [done|].
  simpl. rewrite Nat.add_0_r. f_equal.
  replace (Z.of_nat n + 1) with (Z.of_nat (S n)) by lia. rewrite IH.
  f_equal. apply imap_ext. intros i x _. simpl. do 2 f_equal. lia.
Qed.

Lemma entryReplay_length harUUID i entry fs :
  entryReplay harUUID i entry fs -> (length fs <= 2)%nat.
Proof.
  intros (rq & rs & -> & _ & Hrq & Hrs). rewrite length_app.
  assert (length rq <= 1)%nat.
  { destruct (Request entry) as [h|]; [|subst; simpl; lia].
    destruct (convertRequest h); [|subst; simpl; lia].
    destruct Hrq as (f & r & -> & _); simpl; lia. }
  assert (length rs <= 1)%nat; [|lia].
  destruct (Response entry) as [h|]; [|subst; simpl; lia].
  destruct (convertResponse h); [|subst; simpl; lia].
  destruct Hrs as (f & r & -> & _); simpl; lia.
Qed.

(** X10.  [parseFromHAR] feeds the collector the frames of the entries in
    the order of the archive: first the frames of the entry at index 0, then
    those of the entry at index 1, and so on.  The frames of an entry are
    its request, if it has one and it converts, followed by its response
    likewise, so at most two.  Each frame carries the time of its entry as
    observation time, no addressing at all (nil addresses, port 0), the one
    identifier drawn for the whole archive as stream, the index of its entry
    as sequence number and the payload of the side converted. *)
Theorem parseFromHAR_frames harUUID (c : C)
    (log : CustomHARLog HarRequest HarResponse) :
  exists fss : list (list (ParsedNetworkTraffic Payload)),
    col (parseFromHAR harUUID c log) =
      foldl (fun c0 f => CollectorProcess f c0) c (concat fss) /\
    length fss = length (Entries log) /\
    forall (i : nat) entry fs,
      Entries log !! i = Some entry -> fss !! i = Some fs ->
      entryReplay harUUID i entry fs /\ (length fs <= 2)%nat.
Proof.
  exists (imap (fun i entry => entryFrames harUUID (Z.of_nat i) entry)
               (Entries log)).
  split; [|split].
  - unfold parseFromHAR.
    match goal with |- context [entriesLoop _ _ _ ?st0] =>
      destruct (entriesLoop_spec harUUID 0 (Entries log) st0) as (_ & _ & ->)
    end.
    simpl. change 0 with (Z.of_nat 0).
    by rewrite (framesFrom_imap harUUID 0 (Entries log)).
  - apply length_imap.
  - intros i entry fs Hi Hfs. rewrite list_lookup_imap, Hi in Hfs.
    injection Hfs as <-.
    pose proof (entryFrames_replay harUUID i entry) as Hr.
    split; [exact Hr|]. by eapply entryReplay_length.
Qed.

(** X11.  The loop of [parseFromHAR] composes: running it over the first
    part of an archive and then, from the state reached and the next index,
    over the rest is running it over the whole; the numbers of successful
    entries of the two parts add up. *)
Theorem entriesLoop_app harUUID i (l1 l2 : list (Entry HarRequest HarResponse))
    st :
  entriesLoop harUUID i (l1 ++ l2) st =
    entriesLoop harUUID (i + Z.of_nat (length l1)) l2
                (entriesLoop harUUID i l1 st) /\
  successfulEntries (entriesLoop harUUID i (l1 ++ l2) st) =
    successfulEntries (entriesLoop harUUID i l1 st) +
    Z.of_nat (length (filter (fun e => fullyOK e = true) l2)).
Proof.
  assert (Happ : forall l i st,
    entriesLoop harUUID i (l ++ l2) st =
      entriesLoop harUUID (i + Z.of_nat (length l)) l2
                  (entriesLoop harUUID i l st)).
  { induction l as [|entry l IH]; intros j st'; simpl.
    - by rewrite Z.add_0_r.
    - rewrite IH. f_equal. lia. }
  split; [apply Happ|].
  rewrite Happ.
  by destruct (entriesLoop_spec harUUID (i + Z.of_nat (length l1)) l2
                 (entriesLoop harUUID i l1 st)) as (-> & _).
Qed.

Lemma entryErrors_length entry :
  (if fullyOK entry then length (entryErrors entry) = 0
   else 1 <= length (entryErrors entry) <= 2)%nat.
Proof.
  unfold fullyOK, requestOK, responseOK, entryErrors.
  destruct (Request entry) as [r|]; [destruct (convertRequest r)|];
    (destruct (Response entry) as [r'|]; [destruct (convertResponse r')|]);
    simpl; lia.
Qed.

Lemma allErrors_length entries :
  let failed := length (filter (fun e => fullyOK e = false) entries) in
  (failed <= length (allErrors entries) <= 2 * failed)%nat /\
  (length (filter (fun e => fullyOK e = true) entries) + failed
   = length entries)%nat.
Proof.
  induction entries as [|entry entries [IH1 IH2]]; [simpl; lia|].
  unfold allErrors in *. cbn [map concat]. rewrite length_app.
  pose proof (entryErrors_length entry) as He.
  destruct (fullyOK entry) eqn:Hok.
  - rewrite (filter_cons_True (fun e => fullyOK e = true)) by done.
    rewrite (filter_cons_False (fun e => fullyOK e = false))
      by (rewrite Hok; done).
    simpl in *. lia.
  - rewrite (filter_cons_False (fun e => fullyOK e = true))
      by (rewrite Hok; done).
    rewrite (filter_cons_True (fun e => fullyOK e = false)) by done.
    simpl in *. lia.
Qed.

Lemma parseFromHAR_numbers harUUID (c : C)
    (log : CustomHARLog HarRequest HarResponse) :
  successfulEntries (parseFromHAR harUUID c log) =
    Z.of_nat (length (filter (fun e => fullyOK e = true) (Entries log))) /\
  sampled_err.TotalCount (errs (parseFromHAR harUUID c log)) =
    Z.of_nat (length (allErrors (Entries log))) /\
  sampled_err.Samples (errs (parseFromHAR harUUID c log)) =
    take 3 (allErrors (Entries log)).
Proof.
  unfold parseFromHAR.
  match goal with |- context [entriesLoop _ _ _ ?st0] =>
    destruct (entriesLoop_spec harUUID 0 (Entries log) st0) as (H1 & H2 & _);
    set (r := entriesLoop harUUID 0 (Entries log) st0) in *
  end.
  simpl in H1, H2.
  match type of H2 with _ = foldl _ ?e0 _ =>
    destruct (add_errors (allErrors (Entries log)) e0) as (_ & A2 & A3) end.
  rewrite <- H2 in A2, A3. simpl in A2, A3. specialize (A3 ltac:(lia)).
  split; [lia|]. split; [lia|exact A3].
Qed.

(** X12.  The two numbers [parseFromHAR] returns are tied: the successful
    entries are never more than the entries; every unsuccessful entry
    accounts for one or two of the errors counted, so the count is zero
    exactly when every entry was successful. *)
Theorem parseFromHAR_success_and_errors harUUID (c : C)
    (log : CustomHARLog HarRequest HarResponse) :
  let r := parseFromHAR harUUID c log in
  let n := Z.of_nat (length (Entries log)) in
  let failed := n - successfulEntries r in
  0 <= successfulEntries r <= n /\
  failed <= sampled_err.TotalCount (errs r) <= 2 * failed /\
  (sampled_err.TotalCount (errs r) = 0 <-> successfulEntries r = n).
Proof.
  intros r n failed. subst r n failed.
  destruct (parseFromHAR_numbers harUUID c log) as (-> & -> & _).
  destruct (allErrors_length (Entries log)) as [H1 H2]. simpl in H1.
  lia.
Qed.

End ReplayMore.

Section ProcessHARFacts.

Import apispec.

Context {Payload HarRequest HarResponse C : Type}.
Context `{!Collector Payload C} `{!FromHAR Payload HarRequest HarResponse}.

(** X13.  [processHAR] returns an error only when the archive cannot be
    loaded, and then touches neither collector.  Otherwise it returns [nil],
    however many entries failed; it feeds the outbound collector when the
    archive is flagged outbound and the inbound one when not, and leaves the
    other as it was; it prints warnings exactly when some entry was not
    fully successful: three lines and one line per sample, the first three
    errors in the order of the archive, so at most six. *)
Theorem processHAR_outcome (load : string -> result (CustomHAR HarRequest HarResponse))
    harUUID (inCol outCol : C) p :
  let r := processHAR load harUUID inCol outCol p in
  match load p with
  | Err err =>
    returned r = Some (Wrap err ("failed to load HAR file " +:+ p)) /\
    inboundCol r = inCol /\ outboundCol r = outCol /\ warnings r = []
  | Ok har =>
    returned r = None /\
    (if AkitaExtOutbound har
     then inboundCol r = inCol /\
          outboundCol r = col (parseFromHAR harUUID outCol (Log har))
     else outboundCol r = outCol /\
          inboundCol r = col (parseFromHAR harUUID inCol (Log har))) /\
    (warnings r = [] <->
     Forall (fun e => fullyOK e = true) (Entries (Log har))) /\
    (length (warnings r) <= 6)%nat /\
    (warnings r <> [] ->
     length (warnings r) =
       (3 + Nat.min 3 (length (allErrors (Entries (Log har)))))%nat)
  end.
Proof.
  intros r. subst r. unfold processHAR.
  destruct (load p) as [har|err]; [|done]. simpl.
  split; [done|]. split; [by destruct (AkitaExtOutbound har)|].
  set (col0 := if AkitaExtOutbound har then outCol else inCol).
  destruct (parseFromHAR_numbers harUUID col0 (Log har)) as (_ & HT & HS).
  destruct (allErrors_length (Entries (Log har))) as [H1 H2]. simpl in H1.
  rewrite HT, HS.
  destruct (Z.ltb_spec 0 (Z.of_nat (length (allErrors (Entries (Log har)))))).
  - split.
    + split; [done|]. intros Hall. exfalso.
      assert (length (filter (fun e => fullyOK e = false) (Entries (Log har)))
              = 0)%nat; [|lia].
      clear -Hall. induction Hall as [|e l He _ IH]; [done|].
      rewrite filter_cons_False by (rewrite He; done). exact IH.
    + cbn [length app]. rewrite length_map, length_take. split; [lia|].
      intros _. reflexivity.
  - split; [|split; [simpl; lia|done]]. split; [|done]. intros _.
    assert (Hz : length (filter (fun e => fullyOK e = false)
                                (Entries (Log har))) = 0%nat) by lia.
    clear -Hz. induction (Entries (Log har)) as [|e l IH]; [constructor|].
    destruct (fullyOK e) eqn:Hok.
    + constructor; [done|]. apply IH.
      by rewrite filter_cons_False in Hz by (rewrite Hok; done).
    + by rewrite filter_cons_True in Hz by done.
Qed.

End ProcessHARFacts.

Section RestMore.

Context {Net : Type} `{!rest.HTTPClient Net}.

Lemma sendRequest_cases (cfg : rest.Config) ctx req (w : rest.Wire Net) :
  (exists msg, rest.sendRequest cfg ctx req w = (w, inl (rest.Plain msg)) /\
     (rest.apiKeyID cfg = "" \/ rest.apiKeySecret cfg = "" \/
      exists err, rest.FromRequest (rest.decorate cfg req) = Err err)) \/
  (exists retryable,
     rest.apiKeyID cfg <> "" /\ rest.apiKeySecret cfg <> "" /\
     rest.FromRequest (rest.decorate cfg req) = Ok retryable /\
     let w' := {| rest.net := (rest.Do (rest.net w) retryable).1;
                  rest.sent := rest.sent w ++ [retryable] |} in
     match (rest.Do (rest.net w) retryable).2 with
     | Err err => rest.sendRequest cfg ctx req w = (w', inl (rest.Plain err))
     | Ok resp =>
       match rest.ReadAll resp with
       | Err err =>
         rest.sendRequest cfg ctx req w =
           (w', inl (rest.Plain (Wrap err "failed to read response body")))
       | Ok body =>
         rest.sendRequest cfg ctx req w =
           (w', if (rest.RespStatusCode resp <? 200)
                   || (299 <? rest.RespStatusCode resp)
                then inl (rest.IsHTTPError
                            {| rest.StatusCode := rest.RespStatusCode resp;
                               rest.Body := body |})
                else inr body)
       end
     end).
Proof.
  unfold rest.sendRequest.
  destruct (String.eqb (rest.apiKeyID cfg) "") eqn:Hid.
  { left. eexists. split; [done|]. left. by apply String.eqb_eq. }
  destruct (String.eqb (rest.apiKeySecret cfg) "") eqn:Hsec.
  { left. eexists. split; [done|]. right. left. by apply String.eqb_eq. }
  apply String.eqb_neq in Hid, Hsec.
  change (rest.FromRequest _) with (rest.FromRequest (rest.decorate cfg req)).
  destruct (rest.FromRequest (rest.decorate cfg req)) as [retryable|err] eqn:Hfrom.
  2:{ left. eexists. split; [done|]. right. right. by eexists. }
  right. exists retryable. repeat split; try done.
  destruct (rest.Do (rest.net w) retryable) as [n [resp|err]]; simpl; [|done].
  destruct (rest.ReadAll resp) as [body|err]; [|done].
  by destruct (_ || _).
Qed.

(** X14.  [sendRequest] hands at most one request to the HTTP client, and
    none unless both parts of the API key are set and the request converts:
    in those cases the network is left as it was.  A body is returned only
    for a response with a status in 200..299 whose body could be read, and
    an [HTTPError] never carries such a status.  The timeout context that
    [sendRequest] derives plays no part in the outcome. *)
Theorem sendRequest_sends_at_most_once (cfg : rest.Config) ctx req
    (w : rest.Wire Net) :
  let r := rest.sendRequest cfg ctx req w in
  (r.1 = w \/
   exists retryable,
     rest.apiKeyID cfg <> "" /\ rest.apiKeySecret cfg <> "" /\
     rest.FromRequest (rest.decorate cfg req) = Ok retryable /\
     rest.sent r.1 = rest.sent w ++ [retryable] /\
     rest.net r.1 = (rest.Do (rest.net w) retryable).1) /\
  (rest.apiKeyID cfg = "" \/ rest.apiKeySecret cfg = "" \/
   (exists err, rest.FromRequest (rest.decorate cfg req) = Err err) ->
   r.1 = w /\ exists msg, r.2 = inl (rest.Plain msg)) /\
  (forall body, r.2 = inr body ->
     exists retryable resp,
       rest.sent r.1 = rest.sent w ++ [retryable] /\
       (rest.Do (rest.net w) retryable).2 = Ok resp /\
       rest.ReadAll resp = Ok body /\
       200 <= rest.RespStatusCode resp <= 299) /\
  (forall he, r.2 = inl (rest.IsHTTPError he) ->
     (rest.StatusCode he < 200 \/ 299 < rest.StatusCode he) /\
     exists retryable resp,
       rest.sent r.1 = rest.sent w ++ [retryable] /\
       (rest.Do (rest.net w) retryable).2 = Ok resp /\
       rest.RespStatusCode resp = rest.StatusCode he /\
       rest.ReadAll resp = Ok (rest.Body he)) /\
  (forall ctx', rest.sendRequest cfg ctx' req w = r).
Proof.
  intros r. subst r.
  split; [|split; [|split; [|split]]].
  - destruct (sendRequest_cases cfg ctx req w)
      as [(msg & -> & _)|(retryable & Hid & Hsec & Hfrom & Hrest)];
      [by left|].
    right. exists retryable. cbv zeta in Hrest.
    destruct (rest.Do (rest.net w) retryable).2 as [resp|err];
      [destruct (rest.ReadAll resp)|]; rewrite Hrest; done.
  - intros Hmiss.
    destruct (sendRequest_cases cfg ctx req w)
      as [(msg & -> & _)|(retryable & Hid & Hsec & Hfrom & _)];
      [by split; [|eexists]|].
    destruct Hmiss as [?|[?|[err Herr]]]; [done|done|congruence].
  - intros body Hbody.
    destruct (sendRequest_cases cfg ctx req w)
      as [(msg & Heq & _)|(retryable & Hid & Hsec & Hfrom & Hrest)].
    { by rewrite Heq in Hbody. }
    cbv zeta in Hrest.
    destruct (rest.Do (rest.net w) retryable).2 as [resp|err] eqn:Hdo;
      [destruct (rest.ReadAll resp) as [b|err] eqn:Hread|];
      rewrite Hrest in Hbody |- *; simpl in *; try done.
    destruct (Z.ltb_spec (rest.RespStatusCode resp) 200);
      destruct (Z.ltb_spec 299 (rest.RespStatusCode resp));
      simpl in Hbody; try done.
    injection Hbody as ->. exists retryable, resp. repeat split; try done; lia.
  - intros he Hhe.
    destruct (sendRequest_cases cfg ctx req w)
      as [(msg & Heq & _)|(retryable & Hid & Hsec & Hfrom & Hrest)].
    { by rewrite Heq in Hhe. }
    cbv zeta in Hrest.
    destruct (rest.Do (rest.net w) retryable).2 as [resp|err] eqn:Hdo;
      [destruct (rest.ReadAll resp) as [b|err] eqn:Hread|];
      rewrite Hrest in Hhe |- *; simpl in *; try done.
    destruct (Z.ltb_spec (rest.RespStatusCode resp) 200);
      destruct (Z.ltb_spec 299 (rest.RespStatusCode resp));
      simpl in Hhe; try done; injection Hhe as <-; simpl;
      (split; [lia|]); exists retryable, resp; done.
  - intros ctx'. done.
Qed.

Lemma decorate_Header (cfg : rest.Config) (req : rest.Request) :
  rest.Header (rest.decorate cfg req) =
    (if rest.dogfood cfg then <["X-Akita-Dogfood" := ["true"]]>
     else fun h => h)
      (<["X-Akita-Cli-Git-Version" := [rest.gitVersion cfg]]>
         (<["User-Agent" := [rest.userAgent cfg]]>
            (<["Authorization" :=
                 ["Basic " +:+ rest.basicAuth (rest.apiKeyID cfg)
                                              (rest.apiKeySecret cfg)]]>
               (rest.Header req)))) /\
  rest.Rest (rest.decorate cfg req) = rest.Rest req.
Proof.
  unfold rest.decorate, rest.SetBasicAuth, rest.HeaderSet.
  by destruct (rest.dogfood cfg).
Qed.

Lemma decorate_idem (cfg : rest.Config) (req : rest.Request) :
  rest.decorate cfg (rest.decorate cfg req) = rest.decorate cfg req.
Proof.
  destruct (decorate_Header cfg req) as [Hh Hr].
  destruct (decorate_Header cfg (rest.decorate cfg req)) as [Hh2 Hr2].
  rewrite Hh in Hh2. rewrite Hr in Hr2.
  assert (Heq : forall r1 r2 : rest.Request,
             rest.Header r1 = rest.Header r2 -> rest.Rest r1 = rest.Rest r2 ->
             r1 = r2).
  { intros [h1 x1] [h2 x2]. simpl. by intros -> ->. }
  apply Heq; [|congruence]. rewrite Hh2, Hh.
  apply map_eq. intros k.
  destruct (rest.dogfood cfg); simpl;
    repeat match goal with
           | |- context [<[?k' := _]> _ !! k] =>
             destruct (decide (k' = k)) as [<-|];
             [ repeat first [ rewrite lookup_insert_eq
                            | rewrite lookup_insert_ne by done ]; done
             | rewrite (lookup_insert_ne _ k' k) by done ]
           end; done.
Qed.

(** X15.  The request [sendRequest] hands to the HTTP client is the
    caller's with four headers set, each under the canonical form of its
    name and holding one value: [Authorization] with the basic credentials
    made of the configured API key, both parts non-empty, [User-Agent],
    [X-Akita-Cli-Git-Version], and [X-Akita-Dogfood] with [true] when
    dogfooding is on; with dogfooding off that header is as the caller left
    it.  Values the caller had under those names are replaced; every other
    header and the rest of the request are the caller's.  Setting the
    headers a second time changes nothing. *)
Theorem sendRequest_request_sent (cfg : rest.Config) ctx req
    (w : rest.Wire Net) retryable :
  rest.sent (rest.sendRequest cfg ctx req w).1 = rest.sent w ++ [retryable] ->
  let d := rest.decorate cfg req in
  rest.FromRequest d = Ok retryable /\
  rest.apiKeyID cfg <> "" /\ rest.apiKeySecret cfg <> "" /\
  rest.Header d !! "Authorization" =
    Some ["Basic " +:+
          rest.base64 (rest.apiKeyID cfg +:+ ":" +:+ rest.apiKeySecret cfg)] /\
  rest.Header d !! "User-Agent" = Some [rest.userAgent cfg] /\
  rest.Header d !! "X-Akita-Cli-Git-Version" = Some [rest.gitVersion cfg] /\
  rest.Header d !! "X-Akita-Dogfood" =
    (if rest.dogfood cfg then Some ["true"]
     else rest.Header req !! "X-Akita-Dogfood") /\
  (forall k,
      k ∉ ["Authorization"; "User-Agent"; "X-Akita-Cli-Git-Version";
           "X-Akita-Dogfood"] ->
      rest.Header d !! k = rest.Header req !! k) /\
  rest.Rest d = rest.Rest req /\
  rest.decorate cfg d = d.
Proof.
  intros Hsent d.
  destruct (sendRequest_cases cfg ctx req w)
    as [(msg & Heq & _)|(retryable' & Hid & Hsec & Hfrom & Hrest)].
  { rewrite Heq in Hsent. simpl in Hsent.
    apply (f_equal length) in Hsent. rewrite length_app in Hsent.
    simpl in Hsent. lia. }
  assert (retryable' = retryable) as ->.
  { cbv zeta in Hrest.
    destruct (rest.Do (rest.net w) retryable').2 as [resp|err];
      [destruct (rest.ReadAll resp)|]; rewrite Hrest in Hsent;
      simpl in Hsent; apply app_inv_head in Hsent; congruence. }
  destruct (decorate_Header cfg req) as [Hh Hr].
  split; [exact Hfrom|]. split; [exact Hid|]. split; [exact Hsec|].
  pose proof (decorate_idem cfg req) as Hidem.
  subst d. rewrite Hh, Hr.
  repeat split; try done.
  - destruct (rest.dogfood cfg); simpl;
      repeat first [ rewrite lookup_insert_eq
                   | rewrite lookup_insert_ne by done ]; done.
  - destruct (rest.dogfood cfg); simpl;
      repeat first [ rewrite lookup_insert_eq
                   | rewrite lookup_insert_ne by done ]; done.
  - destruct (rest.dogfood cfg); simpl;
      repeat first [ rewrite lookup_insert_eq
                   | rewrite lookup_insert_ne by done ]; done.
  - destruct (rest.dogfood cfg); simpl;
      repeat first [ rewrite lookup_insert_eq
                   | rewrite lookup_insert_ne by done ]; done.
  - intros k Hk. repeat (apply not_elem_of_cons in Hk as [? Hk]).
    destruct (rest.dogfood cfg); simpl;
      repeat (rewrite lookup_insert_ne by done); done.
Qed.

End RestMore.

Section CmdMore.

Context {T P S : Type}.

(** X16.  [RunE] fails on the tags before it looks at the plugins, and on
    either before anything runs: the state is then as it was and the error
    is a wrapped message, never an [AkitaErr].  [Run] is invoked only with
    tags and plugins that loaded; its error comes back as [AkitaErr], and
    [RunE] returns [nil] exactly when all three succeed. *)
Theorem RunE_outcome (tags : result T) (plugins : result P)
    (run : T -> P -> S -> S * option rest.Error) (s : S) :
  let r := apidump.RunE tags plugins run s in
  (r.2 = None <->
   exists tgs ps, tags = Ok tgs /\ plugins = Ok ps /\
                  (run tgs ps s).2 = None) /\
  (forall msg, r.2 = Some (apidump.Wrapped msg) ->
     r.1 = s /\
     ((exists err, tags = Err err /\ msg = Wrap err "failed to parse tags") \/
      (exists tgs err, tags = Ok tgs /\ plugins = Err err /\
                       msg = Wrap err "failed to load plugins"))) /\
  (forall err, r.2 = Some (apidump.AkitaErr err) ->
     exists tgs ps, tags = Ok tgs /\ plugins = Ok ps /\
                    run tgs ps s = (r.1, Some err)) /\
  (forall err, tags = Err err ->
     r = (s, Some (apidump.Wrapped (Wrap err "failed to parse tags")))).
Proof.
  intros r. subst r. unfold apidump.RunE.
  destruct tags as [tgs|terr].
  2:{ split; [|split; [|split]]; simpl.
      - split; [done|]. by intros (? & ? & ? & _).
      - intros msg Hmsg. split; [done|]. left. exists terr.
        split; [done|]. congruence.
      - done.
      - intros err' Herr. congruence. }
  destruct plugins as [ps|perr].
  2:{ split; [|split; [|split]]; simpl.
      - split; [done|]. by intros (? & ? & _ & ? & _).
      - intros msg Hmsg. split; [done|]. right. exists tgs, perr.
        split; [done|]. split; [done|]. congruence.
      - done.
      - done. }
  destruct (run tgs ps s) as [s' [err|]] eqn:Hrun; simpl;
    (split; [|split; [|split]]); try done.
  - split; [done|].
    intros (tgs' & ps' & Ht & Hp & Hnone).
    assert (tgs' = tgs) as -> by congruence.
    assert (ps' = ps) as -> by congruence.
    by rewrite Hrun in Hnone.
  - intros err' Herr. exists tgs, ps. split; [done|]. split; [done|].
    congruence.
  - split; [|done]. intros _. exists tgs, ps. by rewrite Hrun.
Qed.

End CmdMore.

Section CollectorFiling.

Context {Method ExtState Payload : Type}.
Context `{!Externals Method ExtState Payload}.

Implicit Types (c : BackendCollector Method ExtState)
               (wd : World Method ExtState)
               (t : ParsedNetworkTraffic Payload).

Lemma filter_id_unique (k : WitnessID) (e : witnessWithInfo Method)
    (es : list (WitnessID * witnessWithInfo Method)) :
  NoDup es.*1 ->
  (forall k' e', (k', e') ∈ es -> id e' = k') ->
  (k, e) ∈ es ->
  filter (fun w => id w = k) es.*2 = [e].
Proof.
  induction es as [|[k0 e0] es IH]; intros Hnd Hid Hin.
  { by apply elem_of_nil in Hin. }
  simpl in Hnd. apply NoDup_cons in Hnd as [Hnot Hnd].
  assert (Hid0 : id e0 = k0) by (apply Hid; left).
  assert (Hrest : forall k' e', (k', e') ∈ es -> id e' = k')
    by (intros k' e' H'; apply Hid; by right).
  simpl. apply elem_of_cons in Hin as [[= <- <-]|Hin].
  - rewrite filter_cons_True by done. f_equal.
    apply filter_id_none. intros w Hw Hidw.
    apply list_elem_of_fmap in Hw as [[k' e'] [-> Hin']]. simpl in Hidw.
    apply Hnot. apply list_elem_of_fmap. exists (k', e'). split; [|done].
    simpl. by rewrite <- (Hrest k' e' Hin'), Hidw.
  - rewrite filter_cons_False; [by apply IH|].
    intros Hk0. apply Hnot. apply list_elem_of_fmap. exists (k, e).
    split; [|done]. simpl. congruence.
Qed.

(** X17.  An HTTP frame that parses and finds nothing cached under its
    pairing key is filed under that key as it came.  When a sweep is due in
    the same call and the frame was observed more than a minute before the
    clock reading, as the frames of a replayed archive are, the sweep hands
    the entry just filed to [queueUpload], unpaired and once, and removes
    it again; otherwise the entry is cached after the call and no record
    with its key is handed over. *)
Theorem Process_files_unmatched now t p c wd :
  reachable (Payload := Payload) c ->
  isRequest t || isResponse t = true ->
  ParseHTTP (Content t) = Ok p ->
  pairCache c !! PairKey p = None ->
  let s := Process now t c wd in
  let stale := sweepDue now c &&
               time.Before (ObservationTime t)
                           (time.Add now (-1 * pairCacheExpiration)) in
  exists hs,
    handed (trace s.2) = handed (trace wd) ++ hs /\
    (stale = true ->
     pairCache s.1 !! PairKey p = None /\
     filter (fun w => id w = PairKey p) hs = [entryOf t p]) /\
    (stale = false ->
     pairCache s.1 !! PairKey p = Some (entryOf t p) /\
     filter (fun w => id w = PairKey p) hs = []).
Proof.
  intros [Hw Hwf]%reachable_invariants Hhttp Hp Hk s stale.
  set (k := PairKey p) in *. set (e := entryOf t p) in *.
  set (c2 := setPairCache (<[k := e]> (pairCache c)) c).
  assert (Hb : Process_body now t c wd = (c2, wd)).
  { rewrite Process_body_eq, Hhttp, Hp. fold k. by rewrite Hk. }
  assert (Hw2 : batchWired c2) by done.
  assert (Hwf2 : cacheWF c2).
  { unfold cacheWF, c2. simpl. by apply map_Forall_insert_2. }
  assert (Hke : pairCache c2 !! k = Some e) by apply lookup_insert_eq.
  assert (Hd : sweepDue now c2 = sweepDue now c) by done.
  subst s. rewrite Process_eq, Hb. simpl.
  destruct stale eqn:Hstale; subst stale.
  - apply andb_true_iff in Hstale as [Hdue Hold].
    rewrite Process_deferred_sweep by (by rewrite Hd).
    set (cutoff := time.Add now (-1 * pairCacheExpiration)) in *.
    destruct (flushPairCache_emitsOnce now cutoff c2 wd Hw2)
      as (es & Hh & Hnd & Hin & Hgone & _).
    assert (Hlt : observationTime e < cutoff).
    { unfold time.Before in Hold. by apply Z.ltb_lt in Hold. }
    exists es.*2. split; [exact Hh|]. split; [|done]. intros _. split.
    + exact (Hgone k e Hke Hlt).
    + apply filter_id_unique; [done| |by apply Hin].
      intros k' e' [Hc' _]%Hin. by apply (Hwf2 k' e').
  - destruct (Process_deferred_spec now c2 wd Hw2 Hwf2)
      as ((hs & Hh & Hfrom) & Hkeep & _).
    exists hs. split; [exact Hh|]. split; [done|]. intros _. split.
    + apply Hkeep; [done|]. by rewrite Hd.
    + apply filter_id_none. intros w Hin Hidw.
      destruct (Hfrom w Hin) as [Hc' Hexp].
      rewrite Hidw, Hke in Hc'. injection Hc' as <-.
      rewrite Hd in Hexp. simpl in Hexp. congruence.
Qed.

End CollectorFiling.

(** ** Scenarios for the properties above *)

Section MoreScenarios.

Import Demo.

(** X3 at work: the request filed at second 100 has its ports in range. *)
Lemma ports_are_16_bit_witness :
  portsInRange (entryOf (requestFrame (sec 100)) requestPartial).
Proof.
  destruct (ports_are_16_bit (Payload := string) (sec 101)
              (responseFrame (sec 101)) cachedRequest.1 cachedRequest.2)
    as [Hcache _].
  - apply reach_Process, reach_new.
  - apply (Hcache 42%N). vm_compute. reflexivity.
Defined.

(** X5 at work: the response stamped with second 260 is not due at a cutoff
    of second 200, and the sweep does nothing. *)
Lemma flushPairCache_nothing_due_witness :
  flushPairCache (sec 200) (sec 200) cachedResponse.1 cachedResponse.2 =
    (cachedResponse.1, cachedResponse.2) /\
  victims (sec 200) cachedResponse.1 = [].
Proof.
  apply (flushPairCache_nothing_due (sec 200) (sec 200)).
  intros k e.
  assert (pairCache cachedResponse.1 =
          {[ 42%N := entryOf (responseFrame (sec 260)) responsePartial ]})
    as -> by (vm_compute; reflexivity).
  intros [_ <-]%lookup_singleton_Some. vm_compute. discriminate.
Defined.

(** X6 at work: a sweep with cutoff second 200 flushes the request filed at
    second 100; a second sweep with cutoff second 100 finds nothing. *)
Lemma flushPairCache_again_witness :
  flushPairCache (sec 300) (sec 100)
    (flushPairCache (sec 300) (sec 200) cachedRequest.1 cachedRequest.2).1
    (flushPairCache (sec 300) (sec 200) cachedRequest.1 cachedRequest.2).2 =
  flushPairCache (sec 300) (sec 200) cachedRequest.1 cachedRequest.2.
Proof.
  apply (flushPairCache_again (sec 300) (sec 300) (sec 200) (sec 100)).
  vm_compute. discriminate.
Defined.

(** X8 at work: a second request on the stream and sequence number of the
    request filed at second 100 is merged with it, the two taken for the
    two sides of one exchange, and the key leaves the cache. *)
Lemma Process_pairs_by_key_witness :
  let e := entryOf (requestFrame (sec 100)) requestPartial in
  let ex := pairedRecord true e requestPartial in
  wMethod (witness ex) = "req GET / | req GET /" /\
  srcIP ex = server /\
  pairCache (Process (sec 101) (requestFrame (sec 101))
                     cachedRequest.1 cachedRequest.2).1 !! 42%N = None.
Proof.
  destruct (Process_pairs_by_key (Payload := string) (sec 101)
              (requestFrame (sec 101)) requestPartial
              (entryOf (requestFrame (sec 100)) requestPartial)
              cachedRequest.1 cachedRequest.2)
    as (_ & Hw & _ & _ & Haddr & Hgone).
  - apply reach_Process, reach_new.
  - reflexivity.
  - reflexivity.
  - vm_compute. reflexivity.
  - split; [|split].
    + vm_compute. reflexivity.
    + exact (f_equal (fun q => q.1.1.1) Haddr).
    + exact Hgone.
Defined.

(** X15 at work: the request that opens the session goes out with the
    API key in its [Authorization] header and the user agent under
    [User-Agent]; the key as the source spells it holds nothing. *)
Lemma sendRequest_request_sent_witness :
  let d := rest.decorate credentials openSession in
  rest.Header d !! "Authorization" = Some ["Basic YXBrXzE6c2VjcmV0"] /\
  rest.Header d !! "User-Agent" = Some ["akita-cli"] /\
  rest.Header d !! "user-agent" = None /\
  rest.Header d !! "X-Akita-Dogfood" = None.
Proof.
  destruct (sendRequest_request_sent (H := answering 200 "ok") credentials None
              openSession wire0 (rest.decorate credentials openSession))
    as (_ & _ & _ & Hauth & Hua & _ & Hdog & Hother & _).
  - vm_compute. reflexivity.
  - split; [exact Hauth|]. split; [exact Hua|]. split; [|exact Hdog].
    rewrite Hother; [reflexivity|].
    intros Hin. repeat (apply elem_of_cons in Hin as [Hin|Hin]; [done|]).
    by apply elem_of_nil in Hin.
Defined.

(** X17 at work: a collector last called at second 100 is handed, at second
    200, a request observed at second 10: the request is filed, flushed by
    the sweep of the same call and gone from the cache. *)
Lemma Process_files_unmatched_witness :
  exists hs,
    handed (trace (Process (sec 200) (requestFrame (sec 10))
                           warmCollector.1 warmCollector.2).2) =
      handed (trace warmCollector.2) ++ hs /\
    filter (fun w => id w = 42%N) hs =
      [entryOf (requestFrame (sec 10)) requestPartial].
Proof.
  destruct (Process_files_unmatched (Payload := string) (sec 200)
              (requestFrame (sec 10)) requestPartial
              warmCollector.1 warmCollector.2)
    as (hs & Hh & Hstale & _).
  - apply reach_Process, reach_new.
  - reflexivity.
  - reflexivity.
  - vm_compute. reflexivity.
  - exists hs. split; [exact Hh|]. apply Hstale. vm_compute. reflexivity.
Defined.

End MoreScenarios.
